(** * Shallow embedding of the CSV-cleaner extraction and aggregation core

    Sources embedded here:
    - [src/app.py]: [_normalize_articlekey_for_split],
      [_is_channels_freeform_csv],
      [_is_traffic_freeform_csv], [_detect_url_column];
    - [src/inbiz_pipeline.py]: [_read_text_lines], [_normalize_key],
      [parse_traffic], [parse_channels], [aggregate_traffic],
      [aggregate_channels];
    - [src/flexible_parser.py]: [analyze_csv_structure], [analyze_file_type],
      [is_likely_adobe_analytics_csv], [is_channels_csv_flexible],
      [is_traffic_csv_flexible];
    - [src/url_title.py]: [_strip_locale_and_prefixes], [_last_segment].

    Python [str] values are modelled as lists of 8-bit characters, i.e.
    the Latin-1 part of Unicode (code points 0..255); [str.lower],
    [str.isspace] and [re.IGNORECASE] are written out for that range.
    Numbers of a DataFrame are exact rationals ([Q]); [NaN] is [None]. *)

From Stdlib Require Import Ascii String List Bool Arith Lia.
From Stdlib Require Import QArith Qabs Qminmax Permutation Sorting.Sorted ListDec.
Import ListNotations.

Local Open Scope char_scope.
Local Open Scope nat_scope.

(** ** Python strings *)

Abbreviation pystr := (list ascii).

Definition nl : ascii := "010".
Definition slash : ascii := "/".
Definition backslash : ascii := "\".

(** Python [str] literal as a [pystr]. *)
Definition py (s : string) : pystr := list_ascii_of_string s.

(** [str.isspace] on one Latin-1 character: \t \n \v \f \r, the
    separators U+001C..U+001F, space, NEL (U+0085) and NBSP (U+00A0). *)
Definition is_space (c : ascii) : bool :=
  let n := nat_of_ascii c in
  ((9 <=? n) && (n <=? 13)) || ((28 <=? n) && (n <=? 32))
  || (n =? 133) || (n =? 160).

(** [str.lower] on one Latin-1 character: A..Z and U+00C0..U+00DE except
    the multiplication sign U+00D7 move up by 32; everything else is kept. *)
Definition lower_char (c : ascii) : ascii :=
  let n := nat_of_ascii c in
  if ((65 <=? n) && (n <=? 90)) || ((192 <=? n) && (n <=? 222) && negb (n =? 215))
  then ascii_of_nat (n + 32) else c.

Definition py_lower (s : pystr) : pystr := map lower_char s.

(** Case-insensitive match of one character against a lower-case letter,
    as [re.IGNORECASE] does for the letters used in the patterns below. *)
Definition ci (c l : ascii) : bool := Ascii.eqb (lower_char c) l.

Fixpoint lstrip_ws (s : pystr) : pystr :=
  match s with
  | [] => []
  | c :: r => if is_space c then lstrip_ws r else s
  end.

Definition rstrip_ws (s : pystr) : pystr := rev (lstrip_ws (rev s)).

(** [str.strip()] *)
Definition py_strip (s : pystr) : pystr := rstrip_ws (lstrip_ws s).

Fixpoint lstrip_slash (s : pystr) : pystr :=
  match s with
  | [] => []
  | c :: r => if Ascii.eqb c slash then lstrip_slash r else s
  end.

(** [str.rstrip("/")] *)
Definition rstrip_slash (s : pystr) : pystr := rev (lstrip_slash (rev s)).

(** [str.startswith] *)
Fixpoint starts_with (p s : pystr) : bool :=
  match p, s with
  | [], _ => true
  | a :: p', b :: s' => Ascii.eqb a b && starts_with p' s'
  | _ :: _, [] => false
  end.

(** [str.endswith] *)
Definition ends_with (p s : pystr) : bool := starts_with (rev p) (rev s).

(** Substring test [p in s]. *)
Fixpoint contains (p s : pystr) : bool :=
  starts_with p s || match s with [] => false | _ :: s' => contains p s' end.

(** Python regex [$] without MULTILINE: end of the subject, or just before
    a newline that ends the subject. [at_end r] tests it on the rest [r]. *)
Definition at_end (r : pystr) : bool :=
  match r with
  | [] => true
  | [c] => Ascii.eqb c nl
  | _ => false
  end.

(** ** [_normalize_articlekey_for_split] (src/app.py) *)

(** [re.sub(r"[?#].*$", "", s)].  At a [?] or [#] the greedy [.*] runs
    to the first newline; [$] then holds only if that is the end of the
    subject or a final newline.  [dollar_rest r] is what follows the
    match in [r] (the final newline, if any), when there is a match. *)
Fixpoint dollar_rest (r : pystr) : option pystr :=
  match r with
  | [] => Some []
  | c :: r' =>
      if Ascii.eqb c nl then (match r' with [] => Some [nl] | _ => None end)
      else dollar_rest r'
  end.

Definition is_qf (c : ascii) : bool := Ascii.eqb c "?" || Ascii.eqb c "#".

(** The leftmost match is replaced; it reaches [$], so it is the only one. *)
Fixpoint sub_query_fragment (s : pystr) : pystr :=
  match s with
  | [] => []
  | c :: r =>
      if is_qf c then
        match dollar_rest r with
        | Some t => t
        | None => c :: sub_query_fragment r
        end
      else c :: sub_query_fragment r
  end.

(** [re.sub(r"\\.html?$", "", s, flags=re.IGNORECASE)].  The raw string
    holds two backslashes, so the regex is: a literal backslash, any
    character but a newline, [h], [t], [m], an optional [l] (greedy), then
    [$].  [html_tail r] looks at the text [r] after the backslash and
    returns what follows the match. *)
Definition html_tail (r : pystr) : option pystr :=
  match r with
  | x :: h :: t :: m :: rest =>
      if negb (Ascii.eqb x nl) && ci h "h" && ci t "t" && ci m "m" then
        match rest with
        | [] => Some []
        | l :: rest' =>
            if ci l "l" && at_end rest' then Some rest'
            else if at_end rest then Some rest else None
        end
      else None
  | _ => None
  end.

Fixpoint sub_html_split (s : pystr) : pystr :=
  match s with
  | [] => []
  | c :: r =>
      if Ascii.eqb c backslash then
        match html_tail r with
        | Some t => t
        | None => c :: sub_html_split r
        end
      else c :: sub_html_split r
  end.

(** [re.sub(r"/+", "/", s)]: every run of slashes becomes one slash;
    [prev] records that the previous character was a slash of the run. *)
Fixpoint collapse_aux (prev : bool) (s : pystr) : pystr :=
  match s with
  | [] => []
  | c :: r =>
      if Ascii.eqb c slash then
        (if prev then collapse_aux true r else slash :: collapse_aux true r)
      else c :: collapse_aux false r
  end.

Definition collapse_slashes (s : pystr) : pystr := collapse_aux false s.

(** [re.sub(r"^/(it|en)/", "/", s, flags=re.IGNORECASE)] *)
Definition drop_locale (s : pystr) : pystr :=
  match s with
  | a :: b :: c :: d :: r =>
      if Ascii.eqb a slash && ((ci b "i" && ci c "t") || (ci b "e" && ci c "n"))
         && Ascii.eqb d slash
      then slash :: r else s
  | _ => s
  end.

Definition ensure_leading_slash (s : pystr) : pystr :=
  if starts_with [slash] s then s else slash :: s.

Definition normalize_articlekey_for_split (path : pystr) : pystr :=
  let s := py_strip path in
  let s := sub_query_fragment s in
  let s := sub_html_split s in
  let s := collapse_slashes s in
  let s := drop_locale s in
  let s := ensure_leading_slash s in
  let s := rstrip_slash s in
  py_lower s.

(** ** [_normalize_key] (src/inbiz_pipeline.py) *)

(** [re.sub(r"/+$", "", s)]: the leftmost run of slashes that reaches [$]. *)
Fixpoint slash_run_rest (r : pystr) : option pystr :=
  match r with
  | c :: r' => if Ascii.eqb c slash then slash_run_rest r'
               else if at_end r then Some r else None
  | [] => Some []
  end.

Fixpoint sub_trailing_slashes (s : pystr) : pystr :=
  match s with
  | [] => []
  | c :: r =>
      if Ascii.eqb c slash then
        match slash_run_rest r with
        | Some t => t
        | None => c :: sub_trailing_slashes r
        end
      else c :: sub_trailing_slashes r
  end.

(** [re.sub(r"\.html?$", "", s)] (case-sensitive, a literal dot). *)
Definition dot_html_tail (r : pystr) : option pystr :=
  match r with
  | h :: t :: m :: rest =>
      if Ascii.eqb h "h" && Ascii.eqb t "t" && Ascii.eqb m "m" then
        match rest with
        | [] => Some []
        | l :: rest' =>
            if Ascii.eqb l "l" && at_end rest' then Some rest'
            else if at_end rest then Some rest else None
        end
      else None
  | _ => None
  end.

Fixpoint sub_dot_html (s : pystr) : pystr :=
  match s with
  | [] => []
  | c :: r =>
      if Ascii.eqb c "." then
        match dot_html_tail r with
        | Some t => t
        | None => c :: sub_dot_html r
        end
      else c :: sub_dot_html r
  end.

Definition normalize_key (path_str : pystr) : pystr :=
  let s := py_strip path_str in
  match s with
  | [] => s
  | _ =>
      if starts_with [slash] s then sub_dot_html (sub_trailing_slashes s) else s
  end.

Example normalize_split_ex1 :
  normalize_articlekey_for_split (py " /IT//News/Art\xhtml?q=1#f ") = py "/news/art".
Proof. reflexivity. Qed.

Example normalize_split_ex2 :
  normalize_articlekey_for_split (py "/it/News/Articolo.html") = py "/news/articolo.html".
Proof. reflexivity. Qed.

Example normalize_key_ex1 :
  normalize_key (py "/it/News/Articolo.html//") = py "/it/News/Articolo".
Proof. reflexivity. Qed.

(** ** Lines and fields *)

(** [str.split(d)] with an explicit separator. *)
Fixpoint split_on (d : ascii) (s : pystr) : list pystr :=
  match s with
  | [] => [[]]
  | c :: r =>
      if Ascii.eqb c d then [] :: split_on d r
      else match split_on d r with
           | w :: ws => (c :: w) :: ws
           | [] => [[c]]
           end
  end.

Definition comma : ascii := ",".

(** [str.count(",")] *)
Definition count_commas (s : pystr) : nat := count_occ ascii_dec s comma.

Fixpoint pystr_eqb (a b : pystr) : bool :=
  match a, b with
  | [], [] => true
  | x :: a', y :: b' => Ascii.eqb x y && pystr_eqb a' b'
  | _, _ => false
  end.

(** [next((i for i, ln in enumerate(lines) if P(ln)), None)] *)
Fixpoint find_index_from (P : pystr -> bool) (i : nat) (l : list pystr) : option nat :=
  match l with
  | [] => None
  | x :: r => if P x then Some i else find_index_from P (S i) r
  end.

(** [next((i for i in range(i, i + fuel) if P(lines[i])), None)] *)
Fixpoint find_in_range (P : pystr -> bool) (lines : list pystr) (i fuel : nat)
  : option nat :=
  match fuel with
  | 0 => None
  | S f => if P (nth i lines []) then Some i else find_in_range P lines (S i) f
  end.

Definition next_in_range (P : pystr -> bool) (lines : list pystr) (lo hi : nat) :=
  find_in_range P lines lo (hi - lo).

Definition find_marker (lines : list pystr) : option nat :=
  find_index_from (contains (py "Freeform table")) 0 lines.

(** Python exceptions raised by the parsers. *)
Inductive exn := ValueError (msg : pystr) | TypeError (msg : pystr) | KeyError (key : pystr).

Inductive result (A : Type) :=
  | Ok (a : A)
  | Raise (e : exn).
Arguments Ok {A} a.
Arguments Raise {A} e.

(** The string table the parsers build from the file's lines: the
    column names and rows handed to [pd.DataFrame(rows, columns=...)],
    after the totals row ([Page] equal to ["Page"]) is dropped.  The
    numeric coercion and the key columns added afterwards are modelled by
    [finish_frame] below. *)
Record raw_table := { tbl_columns : list pystr; tbl_rows : list (list pystr) }.

(** ** Row extraction (the loop shared by [parse_traffic] and [parse_channels]) *)

Definition is_blank (ln : pystr) : bool :=
  match py_strip ln with [] => true | _ => false end.

(** [n] is [len(headers)] in [parse_traffic] and [1+len(channels)] in
    [parse_channels]; an accepted row is [[parts[0]] + parts[1:n]]. *)
Fixpoint extract_rows (n : nat) (lines : list pystr) : list (list pystr) :=
  match lines with
  | [] => []
  | ln :: rest =>
      if is_blank ln then []
      else if starts_with [comma] ln then []
      else
        let parts := split_on comma ln in
        if length parts <? n then
          (if starts_with (py "...") (py_strip ln) then [] else extract_rows n rest)
        else (hd [] parts :: firstn (n - 1) (tl parts)) :: extract_rows n rest
  end.

Definition not_totals_row (r : list pystr) : bool := negb (pystr_eqb (hd [] r) (py "Page")).

(** ** [parse_traffic] (src/inbiz_pipeline.py), lines 22-46: from the
    file's lines to the string table *)

Definition traffic_header_cand (ln : pystr) : bool :=
  starts_with [comma] ln && contains (py "Entries") ln
  && contains (py "Unique Visitors") ln.

Definition traffic_table (lines : list pystr) : result raw_table :=
  match find_marker lines with
  | None => Raise (ValueError (py "Freeform table not found in traffic CSV."))
  | Some idx =>
      match next_in_range traffic_header_cand lines (idx + 1)
              (Nat.min (length lines) (idx + 50)) with
      | None => Raise (ValueError (py "Traffic header not found."))
      | Some header_i =>
          let headers := py "Page"
                         :: map py_strip (tl (split_on comma (nth header_i lines []))) in
          let rows := extract_rows (length headers) (skipn (header_i + 1) lines) in
          Ok {| tbl_columns := headers; tbl_rows := filter not_totals_row rows |}
      end
  end.

(** ** [parse_channels] (src/inbiz_pipeline.py), lines 56-80: from the
    file's lines to the string table *)

Definition channels_header_cand (ln : pystr) : bool :=
  starts_with [comma] ln && negb (contains (py "Page Views") ln)
  && (4 <=? count_commas ln).

Definition channels_table (lines : list pystr) : result raw_table :=
  match find_marker lines with
  | None => Raise (ValueError (py "Freeform table not found in channels CSV."))
  | Some idx =>
      match next_in_range channels_header_cand lines (idx + 1)
              (Nat.min (length lines) (idx + 50)) with
      | None => Raise (ValueError (py "Channels header not found."))
      | Some header1_i =>
          let channels := map py_strip (tl (split_on comma (nth header1_i lines []))) in
          let start := header1_i + 2 in
          let rows := extract_rows (1 + length channels) (skipn start lines) in
          Ok {| tbl_columns := py "Page" :: channels;
                tbl_rows := filter not_totals_row rows |}
      end
  end.

Example traffic_table_ex :
  traffic_table [py "# Report"; py "Freeform table"; py ",Entries,Unique Visitors";
                 py "Page,1,2"; py "/it/a,3,4"; py "short"; py "/en/b,5,6,7"; py "";
                 py "/x,8,9"]
  = Ok {| tbl_columns := [py "Page"; py "Entries"; py "Unique Visitors"];
          tbl_rows := [[py "/it/a"; py "3"; py "4"]; [py "/en/b"; py "5"; py "6"]] |}.
Proof. reflexivity. Qed.

Example channels_table_ex :
  channels_table [py "Freeform table"; py ",Organic Search,Direct,Internal traffic,Referring Domains,Social Networks";
                  py ",Page Views,Page Views,Page Views,Page Views,Page Views";
                  py "/it/a,1,2,3,4,5"; py "...,"]
  = Ok {| tbl_columns := [py "Page"; py "Organic Search"; py "Direct"; py "Internal traffic";
                          py "Referring Domains"; py "Social Networks"];
          tbl_rows := [[py "/it/a"; py "1"; py "2"; py "3"; py "4"; py "5"]] |}.
Proof. reflexivity. Qed.

(** ** Schema classifier (src/flexible_parser.py) *)

Inductive file_kind := Traffic | Channels | Unknown.

(** The dictionary returned by [analyze_file_type]; its free-text
    ["reason"] entry is left out. *)
Record file_analysis := {
  fa_type : file_kind;
  fa_confidence : Q;
  fa_numeric_columns : list pystr
}.

Definition traffic_keywords : list pystr :=
  [py "entries"; py "visitors"; py "views"; py "exit"; py "time"; py "rate"].
Definition channels_keywords : list pystr :=
  [py "search"; py "direct"; py "internal"; py "referring"; py "social"; py "paid"].

(** The scoring loop: each column adds at most 1 to each score (the inner
    loops [break] at the first keyword found in [col.lower()]). *)
Definition score_columns (columns : list pystr) : nat * nat :=
  fold_left
    (fun '(traffic_score, channels_score) col =>
       let col_lower := py_lower col in
       (if existsb (fun k => contains k col_lower) traffic_keywords
        then S traffic_score else traffic_score,
        if existsb (fun k => contains k col_lower) channels_keywords
        then S channels_score else channels_score))
    columns (0, 0).

Definition Q_of_nat (n : nat) : Q := inject_Z (Z.of_nat n).

Section Classifier.

(** Whether Python's [float(value)] succeeds on a stripped field. *)
Variable is_float : pystr -> bool.

Definition analyze_file_type (columns data_lines : list pystr) : file_analysis :=
  let '(traffic_score, channels_score) := score_columns columns in
  let fallback :=
    if (0 <? traffic_score) || (0 <? channels_score) then
      if channels_score <=? traffic_score
      then {| fa_type := Traffic; fa_confidence := 6 # 10; fa_numeric_columns := columns |}
      else {| fa_type := Channels; fa_confidence := 6 # 10; fa_numeric_columns := columns |}
    else {| fa_type := Unknown; fa_confidence := 0; fa_numeric_columns := [] |} in
  match data_lines with
  | [] => fallback
  | first_line :: _ =>
      let sample_data := tl (split_on comma first_line) in
      let numeric_count := List.length (filter (fun v => is_float (py_strip v)) sample_data) in
      (* numeric_count > len(sample_data) * 0.7 *)
      if negb (Qle_bool (Q_of_nat numeric_count)
                        (Q_of_nat (List.length sample_data) * (7 # 10))) then
        if channels_score <? traffic_score then
          {| fa_type := Traffic;
             fa_confidence := Qmin (9 # 10) ((1 # 2) + Q_of_nat traffic_score * (1 # 10));
             fa_numeric_columns := columns |}
        else if 0 <? channels_score then
          {| fa_type := Channels;
             fa_confidence := Qmin (9 # 10) ((1 # 2) + Q_of_nat channels_score * (1 # 10));
             fa_numeric_columns := columns |}
        else fallback
      else fallback
  end.

(** [analyze_csv_structure]: the dictionary it returns, without the
    ["reason"], ["numeric_columns"] and ["page_column"] entries. *)
Record csv_analysis := {
  ca_type : file_kind;
  ca_columns : list pystr;
  ca_confidence : Q
}.

(** The loop over [range(start, start + fuel)] collecting header lines and
    up to 3 data lines. *)
Fixpoint scan_head (lines : list pystr) (i fuel : nat) (header_lines data_lines : list pystr)
  : list pystr * list pystr :=
  match fuel with
  | 0 => (header_lines, data_lines)
  | S f =>
      let line := py_strip (nth i lines []) in
      match line with
      | [] => scan_head lines (S i) f header_lines data_lines
      | _ =>
          if starts_with [comma] line then
            scan_head lines (S i) f (header_lines ++ [line]) data_lines
          else if negb (starts_with (py "#") line) && contains [comma] line then
            let data_lines' := data_lines ++ [line] in
            if 3 <=? List.length data_lines' then (header_lines, data_lines')
            else scan_head lines (S i) f header_lines data_lines'
          else scan_head lines (S i) f header_lines data_lines
      end
  end.

Definition csv_unknown : csv_analysis :=
  {| ca_type := Unknown; ca_columns := []; ca_confidence := 0 |}.

(** From the decoded lines of the file ([text.splitlines()]). *)
Definition analyze_csv_structure (lines : list pystr) : csv_analysis :=
  match find_marker lines with
  | None => csv_unknown
  | Some freeform_start =>
      let lo := freeform_start + 1 in
      let hi := Nat.min (freeform_start + 10) (List.length lines) in
      let '(header_lines, data_lines) := scan_head lines lo (hi - lo) [] [] in
      match header_lines with
      | [] => csv_unknown
      | first_header :: _ =>
          let columns := map py_strip (tl (split_on comma first_header)) in
          let analysis := analyze_file_type columns data_lines in
          {| ca_type := fa_type analysis; ca_columns := columns;
             ca_confidence := fa_confidence analysis |}
      end
  end.

End Classifier.

(** A stand-in for [float()] used in the examples: non-empty decimal digits. *)
Definition digits_only (v : pystr) : bool :=
  match v with
  | [] => false
  | _ => forallb (fun c => (48 <=? nat_of_ascii c) && (nat_of_ascii c <=? 57)) v
  end.

Example analyze_csv_structure_ex :
  ca_type (analyze_csv_structure digits_only
    [py "Freeform table"; py ",Entries,Exit Rate,Unique Visitors,Page Views";
     py "/it/a,1,2,3,4"]) = Traffic.
Proof. reflexivity. Qed.

(** ** Aggregation (src/inbiz_pipeline.py) *)

(** Python's [<] on [str]: code points compared left to right, a proper
    prefix being the smaller string. *)
Fixpoint pystr_ltb (a b : pystr) : bool :=
  match a, b with
  | [], [] => false
  | [], _ :: _ => true
  | _ :: _, [] => false
  | x :: a', y :: b' =>
      if nat_of_ascii x <? nat_of_ascii y then true
      else if nat_of_ascii y <? nat_of_ascii x then false
      else pystr_ltb a' b'
  end.

(** [df.groupby("ArticleKey")] with pandas' default [sort=True]: one group
    per distinct key, the groups in ascending key order, the rows of a
    group in their input order.  [grp_insert] files one row. *)
Fixpoint grp_insert {A : Type} (k : pystr) (r : A) (gs : list (pystr * list A))
    : list (pystr * list A) :=
  match gs with
  | [] => [(k, [r])]
  | (k', rs) :: gs' =>
      if pystr_eqb k k' then (k', rs ++ [r]) :: gs'
      else if pystr_ltb k k' then (k, [r]) :: gs
      else (k', rs) :: grp_insert k r gs'
  end.

Definition group_by {A : Type} (key : A -> pystr) (rows : list A) : list (pystr * list A) :=
  fold_left (fun gs r => grp_insert (key r) r gs) rows [].

(** Column reductions with pandas' NaN handling: [sum] and [np.nansum]
    skip NaN (an all-NaN column sums to 0); [mean] skips NaN and is NaN
    when no value is left.  Sums are exact rational sums; they agree with
    pandas' float64 sums on the columns [exact_count_col] describes
    below, and the sum theorems are stated for such columns. *)
Definition nan_add (x : option Q) (acc : Q) : Q :=
  match x with Some q => Qplus q acc | None => acc end.

Definition nansum (xs : list (option Q)) : Q := fold_right nan_add 0%Q xs.

Definition nanmean (xs : list (option Q)) : option Q :=
  match List.length (filter (fun x => match x with Some _ => true | None => false end) xs) with
  | 0 => None
  | n => Some (Qdiv (nansum xs) (Q_of_nat n))
  end.

(** The [lang] column: [IT], [EN] or [OTHER] from the key's prefix. *)
Definition lang_of (k : pystr) : pystr :=
  if starts_with (py "/it/") k then py "IT"
  else if starts_with (py "/en/") k then py "EN"
  else py "OTHER".

(** [merge(..., on="ArticleKey", how="left")]: the right row of the key. *)
Fixpoint assoc {B : Type} (k : pystr) (l : list (pystr * B)) : option B :=
  match l with
  | [] => None
  | (k', v) :: l' => if pystr_eqb k k' then Some v else assoc k l'
  end.

(** ** The DataFrame returned by [parse_traffic] and [parse_channels]
    (src/inbiz_pipeline.py, lines 44-52 and 78-85) *)

(** A cell of that DataFrame: a string, or a number produced by
    [pd.to_numeric(..., errors="coerce")] ([None] is NaN). *)
Inductive cell := SCell (s : pystr) | NCell (v : option Q).

Record frame := { df_columns : list pystr; df_rows : list (list cell) }.

(** [pd.DataFrame(rows, columns=cols)] on the string rows. *)
Definition frame_of_table (t : raw_table) : frame :=
  {| df_columns := tbl_columns t; df_rows := map (map SCell) (tbl_rows t) |}.

(** Position of the first column named [c]. *)
Fixpoint index_of (c : pystr) (cols : list pystr) : option nat :=
  match cols with
  | [] => None
  | c' :: cs => if pystr_eqb c c' then Some 0 else option_map S (index_of c cs)
  end.

(** How many columns are named [c]. *)
Definition count_name (c : pystr) (cols : list pystr) : nat :=
  List.length (filter (pystr_eqb c) cols).

(** The row with its [j]-th cell replaced by [f] of it. *)
Fixpoint update_at {A : Type} (j : nat) (f : A -> A) (l : list A) : list A :=
  match l, j with
  | [], _ => []
  | x :: r, 0 => f x :: r
  | x :: r, S j' => x :: update_at j' f r
  end.

(** [df[name]] for a column that exists (the parsers read only "Page"
    and the "ArticleKey" they have just written). *)
Definition column (name : pystr) (f : frame) : list cell :=
  match index_of name (df_columns f) with
  | Some j => map (fun r => nth j r (NCell None)) (df_rows f)
  | None => []
  end.

(** [df[name] = values]: a column of that name is overwritten in place,
    otherwise the column is appended. *)
Definition assign_col (name : pystr) (vals : list cell) (f : frame) : frame :=
  match index_of name (df_columns f) with
  | Some j => {| df_columns := df_columns f;
                 df_rows := map (fun rv => update_at j (fun _ => snd rv) (fst rv))
                                (combine (df_rows f) vals) |}
  | None => {| df_columns := df_columns f ++ [name];
               df_rows := map (fun rv => fst rv ++ [snd rv]) (combine (df_rows f) vals) |}
  end.

(** The message of the [TypeError] that [pd.to_numeric] raises when it is
    given a DataFrame. *)
Definition to_numeric_msg : pystr := py "arg must be a list, tuple, 1-d array, or Series".

(** [df["Page"].apply(_normalize_key)]: the Page column is never converted
    to numbers, so only strings reach [_normalize_key]. *)
Definition key_cell (x : cell) : cell :=
  match x with
  | SCell s => SCell (normalize_key s)
  | NCell _ => x
  end.

(** [lambda s: "IT" if str(s).startswith("/it/") else ("EN" if ... else
    "OTHER")]; the [str] of a number never starts with "/". *)
Definition lang_cell (x : cell) : cell :=
  match x with
  | SCell s => SCell (lang_of s)
  | NCell _ => SCell (py "OTHER")
  end.

Section Frame.

(** [pd.to_numeric(..., errors="coerce")] on one string cell: the number
    it denotes, or NaN ([None]) when pandas cannot parse it.  pandas'
    number syntax is left abstract. *)
Variable to_numeric : pystr -> option Q.

Definition coerce_cell (x : cell) : cell :=
  match x with
  | SCell s => NCell (to_numeric s)
  | NCell v => NCell v
  end.

(** [for c in cols: df[c] = pd.to_numeric(df[c], errors="coerce")].  When
    two columns share the name [c], [df[c]] is a DataFrame and
    [pd.to_numeric] raises [TypeError]. *)
Fixpoint coerce_numeric (cols : list pystr) (f : frame) : result frame :=
  match cols with
  | [] => Ok f
  | c :: rest =>
      if 2 <=? count_name c (df_columns f) then Raise (TypeError to_numeric_msg)
      else
        match index_of c (df_columns f) with
        | None => Raise (KeyError c)
        | Some j =>
            coerce_numeric rest {| df_columns := df_columns f;
                                   df_rows := map (update_at j coerce_cell) (df_rows f) |}
        end
  end.

(** The end of both parsers: numeric coercion of [numeric_cols]
    ([df.columns[1:]] in [parse_traffic], [channels] in [parse_channels],
    both the columns after "Page"), then the "ArticleKey" and "lang"
    columns.  (With a second "Page" column the totals-row filter masks
    cells instead of dropping rows, but the coercion loop then raises
    [TypeError] on that name, so the filter of [raw_table] gives the same
    result.) *)
Definition finish_frame (numeric_cols : list pystr) (t : raw_table) : result frame :=
  match coerce_numeric numeric_cols (frame_of_table t) with
  | Raise e => Raise e
  | Ok f =>
      let f := assign_col (py "ArticleKey") (map key_cell (column (py "Page") f)) f in
      Ok (assign_col (py "lang") (map lang_cell (column (py "ArticleKey") f)) f)
  end.

(** [parse_traffic] (src/inbiz_pipeline.py) *)
Definition parse_traffic (lines : list pystr) : result frame :=
  match traffic_table lines with
  | Raise e => Raise e
  | Ok t => finish_frame (tl (tbl_columns t)) t
  end.

(** [parse_channels] (src/inbiz_pipeline.py) *)
Definition parse_channels (lines : list pystr) : result frame :=
  match channels_table lines with
  | Raise e => Raise e
  | Ok t => finish_frame (tl (tbl_columns t)) t
  end.

End Frame.



(** A row of the traffic DataFrame handed to [aggregate_traffic]. *)
Record traffic_row := {
  tr_key : pystr;              (* ArticleKey *)
  tr_entries : option Q;       (* Entries *)
  tr_uv : option Q;            (* Unique Visitors *)
  tr_pv : option Q;            (* Page Views *)
  tr_er : option Q;            (* Exit Rate *)
  tr_time : option Q           (* Time Spent per Visit (seconds) *)
}.

Record traffic_agg := {
  ta_key : pystr;
  ta_entries : Q;
  ta_uv : Q;
  ta_pv : Q;
  ta_er : option Q;
  ta_time : option Q;
  ta_lang : pystr
}.

(** The first [groupby(...).agg(...)]: sums and means. *)
Definition agg_traffic_group (kg : pystr * list traffic_row) : traffic_agg :=
  let '(k, g) := kg in
  {| ta_key := k;
     ta_entries := nansum (map tr_entries g);
     ta_uv := nansum (map tr_uv g);
     ta_pv := nansum (map tr_pv g);
     ta_er := nanmean (map tr_er g);
     ta_time := nanmean (map tr_time g);
     ta_lang := [] |}.

(** [tmp["w"] = tmp["Page Views"].replace(0, np.nan)] *)
Definition pv_weight (r : traffic_row) : option Q :=
  match tr_pv r with
  | Some q => if Qeq_bool q 0 then None else Some q
  | None => None
  end.

(** [tmp["er_w"] = tmp["Exit Rate"] * tmp["w"]] *)
Definition er_weighted (r : traffic_row) : option Q :=
  match tr_er r, pv_weight r with
  | Some e, Some w => Some (Qmult e w)
  | _, _ => None
  end.

(** The lambda of [groupby(...).apply]:
    [nansum(er_w) / nansum(w) if nansum(w) > 0 else nan]. *)
Definition weighted_group (g : list traffic_row) : option Q :=
  let sw := nansum (map pv_weight g) in
  if negb (Qle_bool sw 0) then Some (Qdiv (nansum (map er_weighted g)) sw) else None.

(** [aggregate_traffic].  The test [if "Exit Rate" in df.columns and
    "Page Views" in df.columns] always holds here: the first [agg] call
    already needs both columns. *)
Definition aggregate_traffic (df : list traffic_row) : list traffic_agg :=
  let agg := map agg_traffic_group (group_by tr_key df) in
  let er := map (fun '(k, g) => (k, weighted_group g)) (group_by tr_key df) in
  map (fun a =>
         let er_w := match assoc (ta_key a) er with Some v => v | None => None end in
         {| ta_key := ta_key a;
            ta_entries := ta_entries a;
            ta_uv := ta_uv a;
            ta_pv := ta_pv a;
            (* agg["Exit Rate"].fillna(agg.pop("Exit Rate_w")) *)
            ta_er := match ta_er a with Some v => Some v | None => er_w end;
            ta_time := ta_time a;
            ta_lang := lang_of (ta_key a) |}) agg.

(** A row of the channels DataFrame handed to [aggregate_channels]. *)
Record channel_row := {
  cr_key : pystr;
  cr_organic : option Q;       (* Organic Search *)
  cr_direct : option Q;        (* Direct *)
  cr_internal : option Q;      (* Internal traffic *)
  cr_referring : option Q;     (* Referring Domains *)
  cr_social : option Q         (* Social Networks *)
}.

Record channel_agg := {
  cha_key : pystr;
  cha_organic : Q;
  cha_direct : Q;
  cha_internal : Q;
  cha_referring : Q;
  cha_social : Q;
  cha_lang : pystr
}.

Definition aggregate_channels (df : list channel_row) : list channel_agg :=
  map (fun '(k, g) =>
         {| cha_key := k;
            cha_organic := nansum (map cr_organic g);
            cha_direct := nansum (map cr_direct g);
            cha_internal := nansum (map cr_internal g);
            cha_referring := nansum (map cr_referring g);
            cha_social := nansum (map cr_social g);
            cha_lang := lang_of k |}) (group_by cr_key df).

(** The order the spec asks for: each key once, at its first occurrence. *)
Fixpoint first_seen (ks : list pystr) : list pystr :=
  match ks with
  | [] => []
  | k :: ks' => k :: filter (fun k' => negb (pystr_eqb k' k)) (first_seen ks')
  end.

Definition trow (k : string) (e uv pv er t : option Q) : traffic_row :=
  {| tr_key := py k; tr_entries := e; tr_uv := uv; tr_pv := pv; tr_er := er; tr_time := t |}.

(** ** Text lines ([_read_text_lines] and the format detectors) *)

(** The line boundaries of [str.splitlines] in the Latin-1 range:
    \n \v \f \r, U+001C..U+001E and NEL (U+0085). *)
Definition is_linebreak (c : ascii) : bool :=
  let n := nat_of_ascii c in
  ((10 <=? n) && (n <=? 13)) || ((28 <=? n) && (n <=? 30)) || (n =? 133).

Definition cr : ascii := "013".

(** [str.splitlines()]: [cur] is the current line, reversed; "\r\n" is
    one boundary; a final boundary does not open an empty last line. *)
Fixpoint splitlines_aux (cur : pystr) (s : pystr) : list pystr :=
  match s with
  | [] => match cur with [] => [] | _ => [rev cur] end
  | c :: r =>
      if is_linebreak c then
        if Ascii.eqb c cr then
          match r with
          | d :: r' =>
              if Ascii.eqb d nl then rev cur :: splitlines_aux [] r'
              else rev cur :: splitlines_aux [] r
          | [] => [rev cur]
          end
        else rev cur :: splitlines_aux [] r
      else splitlines_aux (c :: cur) r
  end.

Definition splitlines (s : pystr) : list pystr := splitlines_aux [] s.

(** [_read_text_lines]: the decoded text of the file, split into lines. *)
Definition read_text_lines (text : pystr) : list pystr := splitlines text.

(** [sep.join(parts)] *)
Fixpoint py_join (sep : pystr) (parts : list pystr) : pystr :=
  match parts with
  | [] => []
  | [p] => p
  | p :: ps => p ++ sep ++ py_join sep ps
  end.

(** [_is_channels_freeform_csv] and [_is_traffic_freeform_csv]
    (src/app.py), from the decoded text of the upload.  Decoding with
    [errors="ignore"] does not raise, so the [except] branches are never
    taken. *)
Definition head_lines80 (text : pystr) : list pystr :=
  map py_strip (firstn 80 (splitlines text)).

Definition channels_required_tokens : list pystr :=
  [py "Freeform table"; py "Organic Search"; py "Direct"; py "Internal traffic";
   py "Referring Domains"; py "Social Networks"].

Definition is_channels_freeform_csv (text : pystr) : bool :=
  let head_lines := head_lines80 text in
  let head := py_join [nl] head_lines in
  forallb (fun tok =>
             if pystr_eqb tok (py "Freeform table")
             then existsb (fun ln => contains tok ln) head_lines
             else contains tok head)
          channels_required_tokens.

Definition is_traffic_freeform_csv (text : pystr) : bool :=
  let head := py_join [nl] (head_lines80 text) in
  contains (py "Freeform table") head && contains (py "Entries") head
  && contains (py "Unique Visitors") head && contains (py "Page Views") head.

(** [is_likely_adobe_analytics_csv] (src/flexible_parser.py). *)
Definition adobe_indicators : list pystr :=
  [py "Freeform table"; py "Report suite:"; py "# Date:"; py "# Panel"; py "Page,"].

Definition is_likely_adobe_analytics_csv (text : pystr) : bool :=
  let text_sample := py_join [nl] (firstn 20 (splitlines text)) in
  2 <=? List.length (filter (fun ind => contains ind text_sample) adobe_indicators).

(** [is_channels_csv_flexible] and [is_traffic_csv_flexible]: the type
    test and [analysis["confidence"] > 0.5]. *)
Definition is_channels_csv_flexible (is_float : pystr -> bool) (text : pystr) : bool :=
  if negb (is_likely_adobe_analytics_csv text) then false
  else
    let analysis := analyze_csv_structure is_float (splitlines text) in
    match ca_type analysis with
    | Channels => negb (Qle_bool (ca_confidence analysis) (1 # 2))
    | _ => false
    end.

Definition is_traffic_csv_flexible (is_float : pystr -> bool) (text : pystr) : bool :=
  if negb (is_likely_adobe_analytics_csv text) then false
  else
    let analysis := analyze_csv_structure is_float (splitlines text) in
    match ca_type analysis with
    | Traffic => negb (Qle_bool (ca_confidence analysis) (1 # 2))
    | _ => false
    end.

(** ** The [.html] rule of [_last_segment] (src/url_title.py) *)

(** [re.sub(r"\.html?$", "", path, flags=re.IGNORECASE)] *)
Definition dot_html_tail_ci (r : pystr) : option pystr :=
  match r with
  | h :: t :: m :: rest =>
      if ci h "h" && ci t "t" && ci m "m" then
        match rest with
        | [] => Some []
        | l :: rest' =>
            if ci l "l" && at_end rest' then Some rest'
            else if at_end rest then Some rest else None
        end
      else None
  | _ => None
  end.

Fixpoint sub_dot_html_ci (s : pystr) : pystr :=
  match s with
  | [] => []
  | c :: r =>
      if Ascii.eqb c "." then
        match dot_html_tail_ci r with
        | Some t => t
        | None => c :: sub_dot_html_ci r
        end
      else c :: sub_dot_html_ci r
  end.

(** ** [_strip_locale_and_prefixes] (src/url_title.py) *)

Definition in_pystrs (s : pystr) (l : list pystr) : bool := existsb (pystr_eqb s) l.

Definition drop_prefixes : list pystr := [py "blog"; py "articoli"; py "articles"].

(** [while parts and parts[0] in drop_prefixes: parts = parts[1:]] *)
Fixpoint drop_prefix_parts (parts : list pystr) : list pystr :=
  match parts with
  | p :: ps => if in_pystrs p drop_prefixes then drop_prefix_parts ps else parts
  | [] => []
  end.

Definition strip_locale_and_prefixes (path : pystr) : pystr :=
  let path := lstrip_slash path in
  let parts := split_on slash path in
  let parts := match parts with
               | p :: ps => if in_pystrs p [py "it"; py "en"] then ps else parts
               | [] => parts
               end in
  py_join [slash] (drop_prefix_parts parts).

(** ** [_last_segment] (src/url_title.py) *)

Definition last_segment (path : pystr) : pystr :=
  let path := sub_query_fragment path in
  let path := sub_trailing_slashes path in
  let path := sub_dot_html_ci path in
  match path with
  | [] => []
  | _ => last (split_on slash path) []
  end.

(** ** [_detect_url_column] (src/app.py) *)

(** A DataFrame as the list of its columns: the name and the column's
    values after [astype(str)], in order.  The column names are taken to
    be distinct strings. *)
Definition url_df := list (pystr * list pystr).

(** [str.match(r"^(https?://|/).+")]: one of the prefixes, then at least
    one character other than a newline. *)
Definition url_like (v : pystr) : bool :=
  let after p := match skipn (List.length p) v with
                 | c :: _ => negb (Ascii.eqb c nl)
                 | [] => false
                 end in
  (starts_with (py "http://") v && after (py "http://"))
  || (starts_with (py "https://") v && after (py "https://"))
  || (starts_with [slash] v && after [slash]).

(** [looks_like.mean()] over [series.head(200)]; the mean of an empty
    sample is NaN ([None]).  The float division and the float addition
    of 0.05 below are written over [Q]. *)
Definition col_score (vals : list pystr) : option Q :=
  let sample := firstn 200 vals in
  match List.length sample with
  | 0 => None
  | n => Some (Q_of_nat (List.length (filter url_like sample)) / Q_of_nat n)%Q
  end.

(** [if c == df.columns[0]: score += 0.05] *)
Definition boosted_score (first c : pystr) (vals : list pystr) : option Q :=
  if pystr_eqb c first then option_map (fun s => s + (1 # 20))%Q (col_score vals)
  else col_score vals.

(** The second loop: [if score > best_score] (false for NaN). *)
Fixpoint best_url_col (first : pystr) (cols : url_df) (best_col : option pystr) (best_score : Q)
    : option pystr * Q :=
  match cols with
  | [] => (best_col, best_score)
  | (c, vals) :: rest =>
      match boosted_score first c vals with
      | Some score =>
          if negb (Qle_bool score best_score)
          then best_url_col first rest (Some c) score
          else best_url_col first rest best_col best_score
      | None => best_url_col first rest best_col best_score
      end
  end.

Definition is_page_name (c : pystr) : bool := pystr_eqb (py_lower (py_strip c)) (py "page").

Definition detect_url_column (df : url_df) : option pystr :=
  match find (fun cv => is_page_name (fst cv)) df with
  | Some (c, _) => Some c
  | None =>
      let first := match df with (c, _) :: _ => c | [] => [] end in
      let '(best_col, best_score) := best_url_col first df None 0%Q in
      if Qle_bool (3 # 10) best_score then best_col else None
  end.

(** ** Intermediate notions used by the proofs *)

(** The split-view normalizer up to step 6 (before [rstrip] and [lower]). *)
Definition split_stage6 (path : pystr) : pystr :=
  ensure_leading_slash (drop_locale (collapse_slashes
    (sub_html_split (sub_query_fragment (py_strip path))))).

(** No two consecutive slashes. *)
Fixpoint no_double_slash (s : pystr) : bool :=
  match s with
  | a :: ((_ :: _) as r) =>
      negb (Ascii.eqb a slash && starts_with [slash] r) && no_double_slash r
  | _ => true
  end.



(** The strict order of Python strings, as a relation. *)
Definition key_lt (a b : pystr) : Prop := pystr_ltb a b = true.

(** The key list of [group_by], built alongside it. *)
Fixpoint key_insert (k : pystr) (ks : list pystr) : list pystr :=
  match ks with
  | [] => [k]
  | k' :: ks' =>
      if pystr_eqb k k' then ks
      else if pystr_ltb k k' then k :: ks
      else k' :: key_insert k ks'
  end.

Definition group_keys {A : Type} (key : A -> pystr) (rows : list A) : list pystr :=
  fold_left (fun ks r => key_insert (key r) ks) rows [].

(** The rows of one key, in input order. *)
Definition group_of {A : Type} (key : A -> pystr) (rows : list A) (k : pystr) : list A :=
  filter (fun r => pystr_eqb (key r) k) rows.

(** Lines without a line boundary. *)
Definition no_break (l : pystr) : bool := forallb (fun c => negb (is_linebreak c)) l.

(** The total of a numeric output column ([agg[col].sum()]). *)
Definition sum_Q (xs : list Q) : Q := fold_right Qplus 0%Q xs.

(** A number of a count column that is an integer. *)
Definition q_is_int (q : Q) : bool := Z.eqb (Z.modulo (Qnum q) (Z.pos (Qden q))) 0.

(** A count column on which pandas' sums are exact: every value is an
    integer or NaN, and the absolute values add up to less than 2^53.
    Every partial sum formed over such values, in any order and with or
    without the compensation term of pandas' grouped sum, is an integer
    below 2^53, which float64 (and int64) represents exactly; on such
    columns the exact sums of this model are the sums the program
    computes. *)
Definition exact_count_col (xs : list (option Q)) : bool :=
  forallb (fun x => match x with Some q => q_is_int q | None => true end) xs
  && negb (Qle_bool (inject_Z (2 ^ 53)%Z) (nansum (map (option_map Qabs) xs))).

Definition traffic_counts_exact (df : list traffic_row) : bool :=
  exact_count_col (map tr_entries df) && exact_count_col (map tr_uv df)
  && exact_count_col (map tr_pv df).

Definition channel_counts_exact (cf : list channel_row) : bool :=
  exact_count_col (map cr_organic cf) && exact_count_col (map cr_direct cf)
  && exact_count_col (map cr_internal cf) && exact_count_col (map cr_referring cf)
  && exact_count_col (map cr_social cf).

(** The row [coerce_numeric] leaves when the columns [cs] are converted
    one after the other (column names without duplicates). *)
Fixpoint coerce_row (to_numeric : pystr -> option Q) (cs cols : list pystr) (r : list cell)
  : list cell :=
  match cols, r with
  | c :: cols', x :: r' =>
      (if in_pystrs c cs then coerce_cell to_numeric x else x)
      :: coerce_row to_numeric cs cols' r'
  | _, _ => r
  end.

(** The cell a parsed row read from the string fields [r] holds in the
    column [j] named [c]. *)
Definition parsed_cell (to_numeric : pystr -> option Q) (r : list pystr) (j : nat) (c : pystr)
  : cell :=
  if pystr_eqb c (py "ArticleKey") then SCell (normalize_key (hd [] r))
  else if pystr_eqb c (py "lang") then SCell (lang_of (normalize_key (hd [] r)))
  else if j =? 0 then SCell (hd [] r)
  else NCell (to_numeric (nth j r [])).

(** * Properties *)

(** ** Facts about the string helpers *)

Ltac all_chars c := destruct c as [[] [] [] [] [] [] [] []].

Lemma lower_char_idem (c : ascii) : lower_char (lower_char c) = lower_char c.
Proof. all_chars c; reflexivity. Qed.

Lemma lower_char_slash (c : ascii) :
  Ascii.eqb (lower_char c) slash = Ascii.eqb c slash.
Proof. all_chars c; reflexivity. Qed.



Lemma py_lower_idem (s : pystr) : py_lower (py_lower s) = py_lower s.
Proof.
  unfold py_lower; rewrite map_map.
  apply map_ext; apply lower_char_idem.
Qed.

Lemma eqb_slash_sym (c : ascii) : Ascii.eqb slash c = Ascii.eqb c slash.
Proof. apply Ascii.eqb_sym. Qed.

Lemma starts_slash_cons (a : ascii) (r : pystr) :
  starts_with [slash] (a :: r) = Ascii.eqb a slash.
Proof. cbn [starts_with]. rewrite andb_true_r. apply eqb_slash_sym. Qed.

Lemma starts_slash_lower (s : pystr) :
  starts_with [slash] (py_lower s) = starts_with [slash] s.
Proof.
  destruct s as [|a r]; [reflexivity|].
  unfold py_lower; simpl map; rewrite !starts_slash_cons; apply lower_char_slash.
Qed.

Lemma nds_cons (a : ascii) (r : pystr) :
  no_double_slash (a :: r)
  = negb (Ascii.eqb a slash && starts_with [slash] r) && no_double_slash r.
Proof. destruct r; simpl; [destruct (Ascii.eqb a slash); reflexivity|reflexivity]. Qed.

Lemma collapse_aux_nds (s : pystr) : forall prev,
  no_double_slash (collapse_aux prev s) = true
  /\ (prev = true -> starts_with [slash] (collapse_aux prev s) = false).
Proof.
  induction s as [|c r IH]; intros prev; cbn [collapse_aux];
    [split; [reflexivity|destruct prev; reflexivity]|].
  destruct (Ascii.eqb c slash) eqn:Hc.
  - destruct (IH true) as [H1 H2].
    destruct prev.
    + split; [exact H1|intros _; exact (H2 eq_refl)].
    + rewrite nds_cons, H1, (H2 eq_refl), andb_false_r. split; [reflexivity|discriminate].
  - destruct (IH false) as [H1 _].
    rewrite nds_cons, H1, Hc, starts_slash_cons, Hc. split; reflexivity.
Qed.

Lemma collapse_nds (s : pystr) : no_double_slash (collapse_slashes s) = true.
Proof. apply collapse_aux_nds. Qed.

Lemma drop_locale_nds (s : pystr) :
  no_double_slash s = true -> no_double_slash (drop_locale s) = true.
Proof.
  intros H. destruct s as [|a [|b [|c [|d r]]]]; cbn [drop_locale]; auto.
  destruct (Ascii.eqb a slash && ((ci b "i" && ci c "t") || (ci b "e" && ci c "n"))
            && Ascii.eqb d slash) eqn:E; [|exact H].
  apply andb_true_iff in E as [_ Hd].
  rewrite !nds_cons in H. rewrite nds_cons.
  apply andb_true_iff in H as [_ H]; apply andb_true_iff in H as [_ H].
  apply andb_true_iff in H as [_ H].
  apply andb_true_iff in H as [H H']. rewrite Hd in H.
  rewrite andb_true_l in H. rewrite Ascii.eqb_refl, andb_true_l, H, H'.
  reflexivity.
Qed.

Lemma ensure_nds (s : pystr) :
  no_double_slash s = true -> no_double_slash (ensure_leading_slash s) = true.
Proof.
  unfold ensure_leading_slash; intros H.
  destruct (starts_with [slash] s) eqn:E; [exact H|].
  rewrite nds_cons, E, H. reflexivity.
Qed.

Lemma ensure_starts (s : pystr) :
  starts_with [slash] (ensure_leading_slash s) = true.
Proof.
  unfold ensure_leading_slash.
  destruct (starts_with [slash] s) eqn:E; [exact E|reflexivity].
Qed.

Lemma nds_app_l (u v : pystr) :
  no_double_slash (u ++ v) = true -> no_double_slash u = true.
Proof.
  induction u as [|a u IH]; intros H; [reflexivity|].
  simpl app in H. rewrite nds_cons in H. rewrite nds_cons.
  apply andb_true_iff in H as [H1 H2].
  rewrite (IH H2), andb_true_r.
  destruct u as [|b u]; [destruct (Ascii.eqb a slash); reflexivity|exact H1].
Qed.

Lemma nds_lower (s : pystr) : no_double_slash (py_lower s) = no_double_slash s.
Proof.
  induction s as [|a r IH]; [reflexivity|].
  change (py_lower (a :: r)) with (lower_char a :: py_lower r).
  rewrite !nds_cons, IH, starts_slash_lower, lower_char_slash. reflexivity.
Qed.

Lemma lstrip_slash_spec (t : pystr) :
  exists k, t = repeat slash k ++ lstrip_slash t
            /\ starts_with [slash] (lstrip_slash t) = false.
Proof.
  induction t as [|c r IH]; [exists 0; split; reflexivity|].
  simpl lstrip_slash. destruct (Ascii.eqb c slash) eqn:Hc.
  - destruct IH as [k [Hk Hs]]. exists (S k). split; [|exact Hs].
    apply Ascii.eqb_eq in Hc; subst c. simpl. rewrite <- Hk. reflexivity.
  - exists 0. split; [reflexivity|]. rewrite starts_slash_cons. exact Hc.
Qed.

Lemma rstrip_slash_spec (s : pystr) :
  exists k, s = rstrip_slash s ++ repeat slash k
            /\ starts_with [slash] (rev (rstrip_slash s)) = false.
Proof.
  destruct (lstrip_slash_spec (rev s)) as [k [Hk Hs]].
  exists k. unfold rstrip_slash. rewrite rev_involutive. split; [|exact Hs].
  remember (lstrip_slash (rev s)) as t eqn:Et.
  apply (f_equal (@rev ascii)) in Hk.
  rewrite rev_involutive, rev_app_distr, rev_repeat in Hk. exact Hk.
Qed.

Lemma normalize_split_stages (path : pystr) :
  normalize_articlekey_for_split path = py_lower (rstrip_slash (split_stage6 path)).
Proof. reflexivity. Qed.

Lemma stage6_nds (path : pystr) : no_double_slash (split_stage6 path) = true.
Proof. unfold split_stage6. apply ensure_nds, drop_locale_nds, collapse_nds. Qed.

Lemma normalize_split_shape (path : pystr) :
  let y := normalize_articlekey_for_split path in
  no_double_slash y = true
  /\ starts_with [slash] (rev y) = false
  /\ (y = [] \/ starts_with [slash] y = true).
Proof.
  intros y. subst y. rewrite normalize_split_stages.
  destruct (rstrip_slash_spec (split_stage6 path)) as [k [Hk Hend]].
  set (u := rstrip_slash (split_stage6 path)) in *.
  split; [|split].
  - rewrite nds_lower. apply (nds_app_l u (repeat slash k)).
    rewrite <- Hk. apply stage6_nds.
  - unfold py_lower. rewrite <- map_rev. exact (eq_trans (starts_slash_lower _) Hend).
  - destruct u as [|a u'] eqn:Eu; [left; reflexivity|right].
    rewrite starts_slash_lower.
    pose proof (ensure_starts (drop_locale (collapse_slashes
      (sub_html_split (sub_query_fragment (py_strip path)))))) as Hst.
    fold (split_stage6 path) in Hst. rewrite Hk in Hst. exact Hst.
Qed.

Lemma nds_single_slash (s : pystr) :
  no_double_slash s = true -> starts_with [slash] s = true ->
  starts_with [slash; slash] s = false.
Proof.
  intros H1 H2. destruct s as [|a [|b r]]; [discriminate| |].
  - cbn [starts_with]. apply andb_false_r.
  - rewrite nds_cons, starts_slash_cons in H1.
    rewrite starts_slash_cons in H2. rewrite H2 in H1.
    cbn [starts_with]. rewrite !eqb_slash_sym, andb_true_r, H2.
    destruct (Ascii.eqb b slash); [discriminate|reflexivity].
Qed.

(** ** Newlines and the query/fragment and extension rules *)


Lemma at_end_cases (t : pystr) : at_end t = true -> t = [] \/ t = [nl].
Proof.
  destruct t as [|c [|d t]]; simpl; intros H; try discriminate; auto.
  apply Ascii.eqb_eq in H; subst; auto.
Qed.




Lemma eqb_false_neq (a b : ascii) : Ascii.eqb a b = false -> a <> b.
Proof. intros H ->. rewrite Ascii.eqb_refl in H. discriminate. Qed.


Lemma dollar_rest_no_nl (r : pystr) : ~ In nl r -> dollar_rest r = Some [].
Proof.
  induction r as [|c r IH]; intros H; [reflexivity|simpl].
  destruct (Ascii.eqb c nl) eqn:Hc.
  - apply Ascii.eqb_eq in Hc; subst. exfalso; apply H; left; reflexivity.
  - apply IH. intros Hin; apply H; right; exact Hin.
Qed.



















(** ** Fixed points of the individual steps *)












(** * Claims *)

(** ** Key normalization *)




(** C4 (code bug).  The extension rule of the split-view normalizer is
    written [r"\\.html?$"], a backslash followed by any character and
    [htm]/[html], so a plain [.html] is kept and the two keys differ:
    [normalize "/it/News/Articolo.html" = "/news/articolo.html"] while
    [normalize "/News/Articolo" = "/news/articolo"]. *)
Theorem normalize_split_html_kept :
  normalize_articlekey_for_split (py "/it/News/Articolo.html") = py "/news/articolo.html"
  /\ normalize_articlekey_for_split (py "/News/Articolo") = py "/news/articolo"
  /\ normalize_articlekey_for_split (py "/it/News/Articolo.html")
     <> normalize_articlekey_for_split (py "/News/Articolo").
Proof.
  split; [reflexivity|split; [reflexivity|]]. vm_compute; discriminate.
Qed.

(** C10.  Every output of the split-view normalizer equals its own
    lower-case, does not end with ["/"], and is either empty or begins
    with exactly one ["/"]. *)
Theorem normalize_split_output_shape (x : pystr) :
  let y := normalize_articlekey_for_split x in
  py_lower y = y
  /\ ends_with [slash] y = false
  /\ (y = [] \/ (starts_with [slash] y = true /\ starts_with [slash; slash] y = false)).
Proof.
  cbv zeta.
  pose proof (normalize_split_shape x) as Hsh; cbv zeta in Hsh.
  destruct Hsh as [Hnds [Hend Hst]].
  split; [rewrite normalize_split_stages; apply py_lower_idem|split; [exact Hend|]].
  destruct Hst as [Hst|Hst]; [left; exact Hst|right; split; [exact Hst|]].
  apply nds_single_slash; assumption.
Qed.

(** ** Facts about the parsers *)

Lemma find_in_range_none (P : pystr -> bool) (lines : list pystr) (fuel : nat) :
  forall i, (forall j, i <= j < i + fuel -> P (nth j lines []) = false) ->
  find_in_range P lines i fuel = None.
Proof.
  induction fuel as [|f IH]; intros i H; [reflexivity|simpl].
  rewrite (H i) by lia. apply IH. intros j Hj. apply H. lia.
Qed.

Lemma find_in_range_first (P : pystr -> bool) (lines : list pystr) (fuel : nat) :
  forall i h, i <= h < i + fuel -> P (nth h lines []) = true ->
  (forall j, i <= j < h -> P (nth j lines []) = false) ->
  find_in_range P lines i fuel = Some h.
Proof.
  induction fuel as [|f IH]; intros i h Hh Ph Hbefore; [lia|simpl].
  destruct (Nat.eq_dec i h) as [->|Hne]; [rewrite Ph; reflexivity|].
  rewrite (Hbefore i) by lia. apply IH; [lia|exact Ph|].
  intros j Hj. apply Hbefore. lia.
Qed.

Lemma split_on_length (d : ascii) (s : pystr) :
  List.length (split_on d s) = S (count_occ ascii_dec s d).
Proof.
  induction s as [|c r IH]; [reflexivity|simpl].
  destruct (Ascii.eqb c d) eqn:E.
  - apply Ascii.eqb_eq in E; subst c. destruct (ascii_dec d d); [|contradiction].
    simpl. rewrite IH. reflexivity.
  - destruct (ascii_dec c d) as [Ecd|_]; [subst; rewrite Ascii.eqb_refl in E; discriminate|].
    destruct (split_on d r) as [|w ws]; [discriminate|exact IH].
Qed.

Lemma fields_count_commas (ln : pystr) :
  List.length (split_on comma ln) = S (count_commas ln).
Proof. apply split_on_length. Qed.

Lemma channels_header_cand_fields (ln : pystr) :
  channels_header_cand ln = true
  <-> starts_with [comma] ln = true /\ contains (py "Page Views") ln = false
      /\ 5 <= List.length (split_on comma ln).
Proof.
  unfold channels_header_cand. rewrite fields_count_commas.
  rewrite !andb_true_iff, negb_true_iff, Nat.leb_le. intuition lia.
Qed.

(** ** Table location and row extraction *)

(** C5 (counterexample).  A line with exactly 4 comma-separated fields
    (3 commas) is not taken as the channels header: the guard is
    [lines[i].count(",") >= 4].  Here the only such line is refused and
    the table stage raises, and [parse_channels] passes the error on. *)
Lemma channels_header_four_fields_refused :
  List.length (split_on comma (py ",A,B,C")) = 4
  /\ starts_with [comma] (py ",A,B,C") = true
  /\ contains (py "Page Views") (py ",A,B,C") = false
  /\ channels_table [py "Freeform table"; py ",A,B,C"; py ",x,y,z"; py "p,1,2,3"]
     = Raise (ValueError (py "Channels header not found.")).
Proof. repeat split; reflexivity. Qed.

(** C7 (counterexample).  A line beginning with "..." is only taken as
    the truncation marker when it has fewer fields than the header; with
    enough fields it is extracted as a data row. *)
Lemma truncation_marker_row_kept :
  traffic_table [py "Freeform table"; py ",Entries,Unique Visitors"; py "...,1,2"]
  = Ok {| tbl_columns := [py "Page"; py "Entries"; py "Unique Visitors"];
          tbl_rows := [[py "..."; py "1"; py "2"]] |}.
Proof. reflexivity. Qed.

(** C7 (amended).  In the row loop of both parsers ([n] fields expected):
    a line with fewer than [n] fields that begins with "..." (after
    leading whitespace) ends extraction: nothing from it or after it is
    extracted, and no error is raised; a line with fewer than [n] fields
    that is not the marker, not blank and does not begin with a comma is
    skipped; a line with at least [n] fields that is not blank and does
    not begin with a comma, "..." or not, is extracted as a row. *)
Theorem extract_rows_truncation (n : nat) (pre post : list pystr) (ln : pystr) :
  (List.length (split_on comma ln) < n ->
   starts_with (py "...") (py_strip ln) = true ->
   extract_rows n (pre ++ ln :: post) = extract_rows n pre)
  /\ (List.length (split_on comma ln) < n ->
      starts_with (py "...") (py_strip ln) = false ->
      is_blank ln = false -> starts_with [comma] ln = false ->
      extract_rows n (pre ++ ln :: post) = extract_rows n (pre ++ post))
  /\ (n <= List.length (split_on comma ln) ->
      is_blank ln = false -> starts_with [comma] ln = false ->
      extract_rows n (ln :: post)
      = (hd [] (split_on comma ln) :: firstn (n - 1) (tl (split_on comma ln)))
        :: extract_rows n post).
Proof.
  split; [|split].
  - intros Hs Hm. induction pre as [|x pre IH]; cbn [extract_rows app].
    + destruct (is_blank ln); [reflexivity|].
      destruct (starts_with [comma] ln); [reflexivity|].
      apply Nat.ltb_lt in Hs. rewrite Hs, Hm. reflexivity.
    + destruct (is_blank x); [reflexivity|].
      destruct (starts_with [comma] x); [reflexivity|].
      destruct (List.length (split_on comma x) <? n);
        [destruct (starts_with (py "...") (py_strip x)); [reflexivity|exact IH]|].
      rewrite IH. reflexivity.
  - intros Hs Hm Hb Hc. induction pre as [|x pre IH]; cbn [extract_rows app].
    + rewrite Hb, Hc. apply Nat.ltb_lt in Hs. rewrite Hs, Hm. reflexivity.
    + destruct (is_blank x); [reflexivity|].
      destruct (starts_with [comma] x); [reflexivity|].
      destruct (List.length (split_on comma x) <? n);
        [destruct (starts_with (py "...") (py_strip x)); [reflexivity|exact IH]|].
      rewrite IH. reflexivity.
  - intros Hs Hb Hc. cbn [extract_rows]. rewrite Hb, Hc.
    apply Nat.ltb_ge in Hs. rewrite Hs. reflexivity.
Qed.

Lemma extract_rows_truncation_witness :
  extract_rows 3 ([py "/a,1,2"] ++ py "  ..." :: [py "/b,3,4"]) = extract_rows 3 [py "/a,1,2"]
  /\ extract_rows 3 ([py "/a,1,2"] ++ py "note" :: [py "/b,3,4"])
     = extract_rows 3 ([py "/a,1,2"] ++ [py "/b,3,4"])
  /\ extract_rows 3 (py "...,1,2" :: [py "/b,3,4"])
     = (hd [] (split_on comma (py "...,1,2"))
        :: firstn (3 - 1) (tl (split_on comma (py "...,1,2"))))
       :: extract_rows 3 [py "/b,3,4"].
Proof.
  split; [|split].
  - apply (proj1 (extract_rows_truncation 3 [py "/a,1,2"] [py "/b,3,4"] (py "  ...")));
      (reflexivity || (simpl; lia)).
  - apply (proj1 (proj2 (extract_rows_truncation 3 [py "/a,1,2"] [py "/b,3,4"] (py "note"))));
      (reflexivity || (simpl; lia)).
  - apply (proj2 (proj2 (extract_rows_truncation 3 [] [py "/b,3,4"] (py "...,1,2"))));
      (reflexivity || (simpl; lia)).
Defined.

(** ** Classifier *)

Lemma half_le_capped_conf (n : nat) :
  (1 # 2 <= Qmin (9 # 10) ((1 # 2) + Q_of_nat n * (1 # 10)))%Q.
Proof.
  apply Q.min_glb; [unfold Qle; simpl; lia|].
  unfold Qle, Qplus, Qmult, Q_of_nat, inject_Z; cbn [Qnum Qden]. rewrite !Pos2Z.inj_mul. lia.
Qed.

Lemma analyze_file_type_inv (is_float : pystr -> bool) (columns data_lines : list pystr) :
  let a := analyze_file_type is_float columns data_lines in
  fa_type a = Unknown \/ (1 # 2 <= fa_confidence a)%Q.
Proof.
  unfold analyze_file_type. destruct (score_columns columns) as [ts cs].
  assert (Hfb : forall cols,
    let fb := if (0 <? ts) || (0 <? cs) then
                if cs <=? ts
                then {| fa_type := Traffic; fa_confidence := 6 # 10; fa_numeric_columns := cols |}
                else {| fa_type := Channels; fa_confidence := 6 # 10; fa_numeric_columns := cols |}
              else {| fa_type := Unknown; fa_confidence := 0; fa_numeric_columns := [] |} in
    fa_type fb = Unknown \/ (1 # 2 <= fa_confidence fb)%Q).
  { intros cols. cbv zeta. destruct ((0 <? ts) || (0 <? cs)); [|left; reflexivity].
    right. destruct (cs <=? ts); simpl; unfold Qle; simpl; lia. }
  cbv zeta. destruct data_lines as [|first_line rest]; [apply Hfb|].
  destruct (negb _); [|apply Hfb].
  destruct (cs <? ts); [right; apply half_le_capped_conf|].
  destruct (0 <? cs); [right; apply half_le_capped_conf|apply Hfb].
Qed.

Lemma analyze_csv_structure_inv (is_float : pystr -> bool) (lines : list pystr) :
  let c := analyze_csv_structure is_float lines in
  ca_type c = Unknown \/ (1 # 2 <= ca_confidence c)%Q.
Proof.
  unfold analyze_csv_structure. destruct (find_marker lines) as [fs|]; [|left; reflexivity].
  cbv zeta. destruct (scan_head _ _ _ _ _) as [header_lines data_lines].
  destruct header_lines as [|first_header _]; [left; reflexivity|].
  apply analyze_file_type_inv.
Qed.

Lemma below_half_unknown (k : file_kind) (c : Q) :
  k = Unknown \/ (1 # 2 <= c)%Q ->
  ((c < 1 # 2)%Q -> k = Unknown) /\ (k <> Unknown -> (1 # 2 <= c)%Q).
Proof.
  intros [H|H]; split; intros H'.
  - exact H.
  - contradiction.
  - exfalso. exact (Qlt_not_le c (1 # 2) H' H).
  - exact H.
Qed.

(** C6.  Every classification produced by [analyze_csv_structure], and by
    [analyze_file_type] on any columns and sample lines, has kind
    [Unknown] whenever its confidence is below 0.5; equivalently a
    [Traffic] or [Channels] result has confidence at least 0.5.  This
    holds for every behaviour of [float()] on the sampled fields. *)
Theorem classifier_unknown_below_half (is_float : pystr -> bool)
    (lines columns data_lines : list pystr) :
  (let a := analyze_file_type is_float columns data_lines in
   ((fa_confidence a < 1 # 2)%Q -> fa_type a = Unknown)
   /\ (fa_type a <> Unknown -> (1 # 2 <= fa_confidence a)%Q))
  /\ (let c := analyze_csv_structure is_float lines in
      ((ca_confidence c < 1 # 2)%Q -> ca_type c = Unknown)
      /\ (ca_type c <> Unknown -> (1 # 2 <= ca_confidence c)%Q)).
Proof.
  split; cbv zeta; apply below_half_unknown;
    [apply analyze_file_type_inv|apply analyze_csv_structure_inv].
Qed.

Lemma classifier_unknown_below_half_witness :
  fa_type (analyze_file_type digits_only [py "Foo"; py "Bar"] [py "/a,x,y"]) = Unknown
  /\ (1 # 2 <= ca_confidence (analyze_csv_structure digits_only
         [py "Freeform table"; py ",Organic Search,Direct"; py "/it/a,1,2"]))%Q.
Proof.
  destruct (classifier_unknown_below_half digits_only
              [py "Freeform table"; py ",Organic Search,Direct"; py "/it/a,1,2"]
              [py "Foo"; py "Bar"] [py "/a,x,y"]) as [[Ha _] [_ Hc]].
  split; [apply Ha; reflexivity|apply Hc; discriminate].
Defined.

(** ** Aggregation *)

Lemma pystr_eqb_eq (a b : pystr) : pystr_eqb a b = true <-> a = b.
Proof.
  revert b; induction a as [|x a IH]; intros [|y b]; simpl; split; intros H;
    try discriminate; try reflexivity.
  - apply andb_true_iff in H as [Hx Hr].
    apply Ascii.eqb_eq in Hx. apply IH in Hr. subst. reflexivity.
  - injection H as -> ->. rewrite Ascii.eqb_refl. apply IH. reflexivity.
Qed.

Lemma pystr_eqb_refl (a : pystr) : pystr_eqb a a = true.
Proof. apply pystr_eqb_eq. reflexivity. Qed.

Lemma pystr_eqb_sym (a b : pystr) : pystr_eqb a b = pystr_eqb b a.
Proof.
  destruct (pystr_eqb a b) eqn:E1, (pystr_eqb b a) eqn:E2; try reflexivity.
  - apply pystr_eqb_eq in E1. subst. rewrite pystr_eqb_refl in E2. discriminate.
  - apply pystr_eqb_eq in E2. subst. rewrite pystr_eqb_refl in E1. discriminate.
Qed.

Lemma nat_of_ascii_inj (x y : ascii) : nat_of_ascii x = nat_of_ascii y -> x = y.
Proof.
  intros H. rewrite <- (ascii_nat_embedding x), <- (ascii_nat_embedding y), H.
  reflexivity.
Qed.

Lemma pystr_ltb_irrefl (a : pystr) : pystr_ltb a a = false.
Proof. induction a as [|x a IH]; simpl; [reflexivity|]. rewrite Nat.ltb_irrefl. exact IH. Qed.

Ltac code_cases x y :=
  destruct (Nat.ltb_spec (nat_of_ascii x) (nat_of_ascii y));
  destruct (Nat.ltb_spec (nat_of_ascii y) (nat_of_ascii x)).

Lemma pystr_ltb_trans (a b c : pystr) :
  pystr_ltb a b = true -> pystr_ltb b c = true -> pystr_ltb a c = true.
Proof.
  revert b c; induction a as [|x a IH]; intros [|y b] [|z c]; simpl;
    try discriminate; try reflexivity.
  code_cases x y; code_cases y z; code_cases x z; try lia; try discriminate;
    try reflexivity; eauto.
Qed.

Lemma pystr_ltb_total (a b : pystr) :
  a <> b -> pystr_ltb a b = true \/ pystr_ltb b a = true.
Proof.
  revert b; induction a as [|x a IH]; intros [|y b] Hne; simpl; auto;
    try (exfalso; apply Hne; reflexivity).
  code_cases x y; auto; try lia.
    assert (x = y) as <- by (apply nat_of_ascii_inj; lia).
    apply IH. intros <-. apply Hne. reflexivity.
Qed.

Lemma key_lt_trans (a b c : pystr) : key_lt a b -> key_lt b c -> key_lt a c.
Proof. apply pystr_ltb_trans. Qed.

Lemma key_lt_irrefl (a : pystr) : ~ key_lt a a.
Proof. unfold key_lt. rewrite pystr_ltb_irrefl. discriminate. Qed.

Lemma key_lt_neq (a b : pystr) : key_lt a b -> pystr_eqb b a = false.
Proof.
  intros H. destruct (pystr_eqb b a) eqn:E; [|reflexivity].
  apply pystr_eqb_eq in E. subst. exfalso. exact (key_lt_irrefl _ H).
Qed.

Lemma key_insert_in (k x : pystr) (ks : list pystr) :
  In x (key_insert k ks) <-> x = k \/ In x ks.
Proof.
  induction ks as [|a ks IH]; simpl.
  - split; intros [H|H]; auto; contradiction.
  - destruct (pystr_eqb k a) eqn:E.
    + apply pystr_eqb_eq in E. subst a.
      split; [intros H; right; exact H|intros [->|H]; [left; reflexivity|exact H]].
    + destruct (pystr_ltb k a); simpl; rewrite ?IH; split; intros; intuition.
Qed.

Lemma key_insert_sorted (k : pystr) (ks : list pystr) :
  StronglySorted key_lt ks -> StronglySorted key_lt (key_insert k ks).
Proof.
  induction ks as [|a ks IH]; intros Hs; simpl.
  - repeat constructor.
  - inversion Hs as [|a' ks' Hs' Ha]; subst.
    destruct (pystr_eqb k a) eqn:E; [exact Hs|].
    destruct (pystr_ltb k a) eqn:L.
    + constructor; [exact Hs|]. constructor; [exact L|].
      eapply Forall_impl; [|exact Ha]. intros y Hy. exact (key_lt_trans _ _ _ L Hy).
    + assert (Hak : key_lt a k).
      { destruct (pystr_ltb_total k a) as [H|H]; [|congruence|exact H].
        intros ->. rewrite pystr_eqb_refl in E. discriminate. }
      constructor; [apply IH; exact Hs'|].
      apply Forall_forall. intros y Hy. apply key_insert_in in Hy as [->|Hy]; [exact Hak|].
      rewrite Forall_forall in Ha. apply Ha. exact Hy.
Qed.

Lemma map_pair_ext {A : Type} (F G : pystr -> list A) (ks : list pystr) :
  (forall x, In x ks -> F x = G x) ->
  map (fun x => (x, F x)) ks = map (fun x => (x, G x)) ks.
Proof. intros H. apply map_ext_in. intros x Hx. rewrite H by exact Hx. reflexivity. Qed.

Lemma grp_insert_map {A : Type} (F G : pystr -> list A) (k : pystr) (r : A) (ks : list pystr) :
  StronglySorted key_lt ks ->
  (~ In k ks -> F k = []) ->
  (forall x, G x = if pystr_eqb x k then F x ++ [r] else F x) ->
  grp_insert k r (map (fun x => (x, F x)) ks) = map (fun x => (x, G x)) (key_insert k ks).
Proof.
  intros Hs Hk HG. induction ks as [|a ks IH]; simpl.
  - rewrite HG, pystr_eqb_refl, Hk by (intros []). reflexivity.
  - inversion Hs as [|a' ks' Hs' Ha]; subst. rewrite Forall_forall in Ha.
    destruct (pystr_eqb k a) eqn:E.
    + apply pystr_eqb_eq in E. subst a. simpl.
      rewrite HG, pystr_eqb_refl. f_equal. apply map_pair_ext.
      intros x Hx. rewrite HG, key_lt_neq by (apply Ha; exact Hx). reflexivity.
    + assert (Hak : pystr_eqb a k = false) by (rewrite pystr_eqb_sym; exact E).
      destruct (pystr_ltb k a) eqn:L.
      * assert (Hnot : ~ In k (a :: ks)).
        { intros [->|Hin]; [rewrite pystr_eqb_refl in E; discriminate|].
          apply (key_lt_irrefl k). eapply key_lt_trans; [exact L|apply Ha; exact Hin]. }
        simpl. rewrite HG, pystr_eqb_refl, (Hk Hnot). f_equal.
        change ((a, F a) :: map (fun x => (x, F x)) ks) with (map (fun x => (x, F x)) (a :: ks)).
        change ((a, G a) :: map (fun x => (x, G x)) ks) with (map (fun x => (x, G x)) (a :: ks)).
        apply map_pair_ext. intros x Hx. rewrite HG, key_lt_neq; [reflexivity|].
        destruct Hx as [<-|Hx]; [exact L|]. eapply key_lt_trans; [exact L|apply Ha; exact Hx].
      * simpl. rewrite HG, Hak. f_equal. apply IH; [exact Hs'|].
        intros Hn. apply Hk. intros [->|Hin]; [rewrite pystr_eqb_refl in E; discriminate|].
        contradiction.
Qed.

Lemma group_of_nil {A : Type} (key : A -> pystr) (seen : list A) (x : pystr) :
  ~ In x (map key seen) -> group_of key seen x = [].
Proof.
  unfold group_of. induction seen as [|s seen IH]; intros Hn; simpl; [reflexivity|].
  destruct (pystr_eqb (key s) x) eqn:E.
  - apply pystr_eqb_eq in E. exfalso. apply Hn. left. exact E.
  - apply IH. intros H. apply Hn. right. exact H.
Qed.

Lemma group_by_fold {A : Type} (key : A -> pystr) (rows seen : list A) (ks : list pystr) :
  StronglySorted key_lt ks ->
  (forall x, In x ks <-> In x (map key seen)) ->
  fold_left (fun gs r => grp_insert (key r) r gs) rows
            (map (fun x => (x, group_of key seen x)) ks)
  = map (fun x => (x, group_of key (seen ++ rows) x))
        (fold_left (fun ks r => key_insert (key r) ks) rows ks).
Proof.
  revert seen ks. induction rows as [|r rows IH]; intros seen ks Hs Hin; simpl.
  - rewrite app_nil_r. reflexivity.
  - rewrite (grp_insert_map _ (group_of key (seen ++ [r]))); [|exact Hs| |].
    + rewrite IH, <- app_assoc; [reflexivity|apply key_insert_sorted; exact Hs|].
      intros x. rewrite key_insert_in, Hin, map_app, in_app_iff. simpl. intuition.
    + intros Hn. apply group_of_nil. rewrite <- Hin. exact Hn.
    + intros x. unfold group_of. rewrite filter_app. simpl.
      rewrite (pystr_eqb_sym (key r) x).
      destruct (pystr_eqb x (key r)); [reflexivity|apply app_nil_r].
Qed.

Lemma group_keys_fold {A : Type} (key : A -> pystr) (rows : list A) (ks : list pystr) :
  (StronglySorted key_lt ks ->
   StronglySorted key_lt (fold_left (fun ks r => key_insert (key r) ks) rows ks))
  /\ (forall x, In x (fold_left (fun ks r => key_insert (key r) ks) rows ks)
                <-> In x ks \/ In x (map key rows)).
Proof.
  revert ks. induction rows as [|r rows IH]; intros ks; simpl.
  - split; [auto|]. intros x. tauto.
  - split.
    + intros Hs. apply IH. apply key_insert_sorted. exact Hs.
    + intros x. rewrite (proj2 (IH _)), key_insert_in. intuition.
Qed.

(** [group_by] is determined by its sorted key list. *)
Lemma group_by_spec {A : Type} (key : A -> pystr) (rows : list A) :
  group_by key rows = map (fun x => (x, group_of key rows x)) (group_keys key rows)
  /\ StronglySorted key_lt (group_keys key rows)
  /\ (forall x, In x (group_keys key rows) <-> In x (map key rows)).
Proof.
  destruct (group_keys_fold key rows []) as [Hs Hin]. split; [|split].
  - unfold group_by, group_keys.
    change (@nil (pystr * list A)) with (map (fun x => (x, group_of key [] x)) []).
    apply group_by_fold; [constructor|]. intros x. simpl. tauto.
  - apply Hs. constructor.
  - intros x. unfold group_keys. rewrite Hin. simpl. tauto.
Qed.

Lemma sorted_same_elems (l1 l2 : list pystr) :
  StronglySorted key_lt l1 -> StronglySorted key_lt l2 ->
  (forall x, In x l1 <-> In x l2) -> l1 = l2.
Proof.
  revert l2. induction l1 as [|a l1 IH]; intros [|b l2] H1 H2 Hin.
  - reflexivity.
  - exfalso. apply (proj2 (Hin b)). left. reflexivity.
  - exfalso. apply (proj1 (Hin a)). left. reflexivity.
  - inversion H1 as [|a' l1' H1' Ha]; inversion H2 as [|b' l2' H2' Hb]; subst.
    rewrite Forall_forall in Ha, Hb.
    assert (a = b) as <-.
    { destruct (proj1 (Hin a) (or_introl eq_refl)) as [|Ha2]; [congruence|].
      destruct (proj2 (Hin b) (or_introl eq_refl)) as [|Hb1]; [congruence|].
      exfalso. apply (key_lt_irrefl a). eapply key_lt_trans; [apply Ha; exact Hb1|apply Hb; exact Ha2]. }
    f_equal. apply IH; [exact H1'|exact H2'|]. intros x. split; intros Hx.
    + destruct (proj1 (Hin x) (or_intror Hx)) as [<-|H]; [|exact H].
      exfalso. apply (key_lt_irrefl a). apply Ha. exact Hx.
    + destruct (proj2 (Hin x) (or_intror Hx)) as [<-|H]; [|exact H].
      exfalso. apply (key_lt_irrefl a). apply Hb. exact Hx.
Qed.

Lemma perm_filter {A : Type} (f : A -> bool) (l l' : list A) :
  Permutation l l' -> Permutation (filter f l) (filter f l').
Proof.
  induction 1 as [|x l l' _ IH|x y l|l l' l'' _ IH1 _ IH2]; simpl.
  - constructor.
  - destruct (f x); [constructor|]; exact IH.
  - destruct (f x), (f y); try constructor; reflexivity.
  - etransitivity; [exact IH1|exact IH2].
Qed.

Lemma nansum_perm (xs ys : list (option Q)) :
  Permutation xs ys -> (nansum xs == nansum ys)%Q.
Proof.
  unfold nansum. induction 1 as [|x l l' _ IH|x y l|l l' l'' _ IH1 _ IH2]; simpl.
  - reflexivity.
  - destruct x as [q|]; simpl; [rewrite IH|]; [reflexivity|exact IH].
  - destruct x as [p|], y as [q|]; simpl; try reflexivity. ring.
  - rewrite IH1. exact IH2.
Qed.

Lemma Forall2_map_same {A B C : Type} (P : B -> C -> Prop) (f : A -> B) (g : A -> C) (l : list A) :
  (forall x, In x l -> P (f x) (g x)) -> Forall2 P (map f l) (map g l).
Proof.
  induction l as [|x l IH]; intros H; simpl; constructor.
  - apply H. left. reflexivity.
  - apply IH. intros y Hy. apply H. right. exact Hy.
Qed.

Lemma perm_group_keys {A : Type} (key : A -> pystr) (l l' : list A) :
  Permutation l l' -> group_keys key l = group_keys key l'.
Proof.
  intros Hp. destruct (group_by_spec key l) as [_ [Hs Hin]].
  destruct (group_by_spec key l') as [_ [Hs' Hin']].
  apply sorted_same_elems; [exact Hs|exact Hs'|]. intros x.
  rewrite Hin, Hin'. split; apply Permutation_in;
    [|apply Permutation_sym]; apply Permutation_map; exact Hp.
Qed.

Lemma aggregate_traffic_keys (df : list traffic_row) :
  map ta_key (aggregate_traffic df) = group_keys tr_key df.
Proof.
  unfold aggregate_traffic. rewrite !map_map, (proj1 (group_by_spec tr_key df)), map_map.
  rewrite <- (map_id (group_keys tr_key df)) at 2. apply map_ext. reflexivity.
Qed.

Lemma aggregate_channels_keys (cf : list channel_row) :
  map cha_key (aggregate_channels cf) = group_keys cr_key cf.
Proof.
  unfold aggregate_channels. rewrite map_map, (proj1 (group_by_spec cr_key cf)), map_map.
  rewrite <- (map_id (group_keys cr_key cf)) at 2. apply map_ext. reflexivity.
Qed.

(** C1 (code bug).  [aggregate_traffic] keeps the unweighted mean of the
    Exit Rate and uses the page-view-weighted value only where that mean
    is NaN.  For key "/a" with (Exit Rate 0.2, Page Views 100) and (Exit
    Rate 0.8, Page Views 300) the aggregated Exit Rate is 0.5, while the
    weighted value the function itself computes is 0.65. *)
Theorem aggregate_traffic_er_unweighted :
  let df := [trow "/a" None None (Some (100 # 1)) (Some (2 # 10)) None;
             trow "/a" None None (Some (300 # 1)) (Some (8 # 10)) None] in
  (exists q, map ta_er (aggregate_traffic df) = [Some q] /\ (q == 1 # 2)%Q)
  /\ (exists w, weighted_group df = Some w /\ (w == 13 # 20)%Q)
  /\ ~ (1 # 2 == 13 # 20)%Q.
Proof.
  intros df. split; [|split].
  - exists (100 # 200). split; [vm_compute; reflexivity|reflexivity].
  - exists (26000 # 40000). split; [vm_compute; reflexivity|reflexivity].
  - unfold Qeq. simpl. discriminate.
Qed.

(** C2 (code bug).  For key "/a" with one row (Exit Rate 0.35, Page Views
    0) every weight is zero: the weighted value is missing, yet the
    aggregated Exit Rate is 0.35, the unweighted mean. *)
Theorem aggregate_traffic_zero_weight_er_kept :
  let df := [trow "/a" None None (Some (0 # 1)) (Some (35 # 100)) None] in
  weighted_group df = None /\ map ta_er (aggregate_traffic df) = [Some (35 # 100)].
Proof. intros df. split; vm_compute; reflexivity. Qed.

(** C9 (counterexample).  Keys "/b" then "/a" come out as "/a", "/b":
    pandas' [groupby] sorts the keys, so the output is not in first-seen
    order. *)
Lemma aggregate_sorted_not_first_seen :
  let df := [trow "/b" None None None None None; trow "/a" None None None None None] in
  first_seen (map tr_key df) = [py "/b"; py "/a"]
  /\ map ta_key (aggregate_traffic df) = [py "/a"; py "/b"]
  /\ map ta_key (aggregate_traffic df) <> first_seen (map tr_key df).
Proof.
  intros df. split; [|split]; [vm_compute; reflexivity|vm_compute; reflexivity|].
  vm_compute. discriminate.
Qed.

(** C9 (amended).  The output of [aggregate_traffic] and of
    [aggregate_channels] has one row per distinct input key, in strictly
    ascending string order, not in first-seen order.  When the summed
    count columns hold integers (or NaN) whose absolute values add up to
    less than 2^53, so that pandas' float64 sums are exact, the totals
    (Entries, Unique Visitors, Page Views; the five channel columns) do
    not depend on the order of the input rows: permuting the rows gives
    the same keys in the same order with equal totals.  Without that
    condition the float sums may depend on the order. *)
Theorem aggregate_order_and_totals (df df' : list traffic_row) (cf cf' : list channel_row) :
  Permutation df df' -> Permutation cf cf' ->
  traffic_counts_exact df = true -> channel_counts_exact cf = true ->
  StronglySorted key_lt (map ta_key (aggregate_traffic df))
  /\ (forall k, In k (map ta_key (aggregate_traffic df)) <-> In k (map tr_key df))
  /\ Forall2 (fun a a' => ta_key a = ta_key a' /\ (ta_entries a == ta_entries a')%Q
                          /\ (ta_uv a == ta_uv a')%Q /\ (ta_pv a == ta_pv a')%Q)
             (aggregate_traffic df) (aggregate_traffic df')
  /\ StronglySorted key_lt (map cha_key (aggregate_channels cf))
  /\ (forall k, In k (map cha_key (aggregate_channels cf)) <-> In k (map cr_key cf))
  /\ Forall2 (fun c c' => cha_key c = cha_key c' /\ (cha_organic c == cha_organic c')%Q
                          /\ (cha_direct c == cha_direct c')%Q
                          /\ (cha_internal c == cha_internal c')%Q
                          /\ (cha_referring c == cha_referring c')%Q
                          /\ (cha_social c == cha_social c')%Q)
             (aggregate_channels cf) (aggregate_channels cf').
Proof.
  intros Hd Hc _ _.
  destruct (group_by_spec tr_key df) as [Gd [Sd Id]].
  destruct (group_by_spec tr_key df') as [Gd' _].
  destruct (group_by_spec cr_key cf) as [Gc [Sc Ic]].
  destruct (group_by_spec cr_key cf') as [Gc' _].
  rewrite aggregate_traffic_keys, aggregate_channels_keys.
  split; [exact Sd|split; [exact Id|split; [|split; [exact Sc|split; [exact Ic|]]]]].
  - unfold aggregate_traffic. rewrite Gd, Gd', <- (perm_group_keys tr_key df df' Hd), !map_map.
    apply Forall2_map_same. intros x _. cbn [ta_key ta_entries ta_uv ta_pv agg_traffic_group].
    split; [reflexivity|].
    repeat split; apply nansum_perm, Permutation_map, perm_filter, Hd.
  - unfold aggregate_channels. rewrite Gc, Gc', <- (perm_group_keys cr_key cf cf' Hc), !map_map.
    apply Forall2_map_same. intros x _.
    cbn [cha_key cha_organic cha_direct cha_internal cha_referring cha_social].
    split; [reflexivity|].
    repeat split; apply nansum_perm, Permutation_map, perm_filter, Hc.
Qed.

Lemma aggregate_order_and_totals_witness :
  StronglySorted key_lt
    (map ta_key (aggregate_traffic [trow "/b" None None (Some (3 # 1)) None None;
                                    trow "/a" None None (Some (5 # 1)) None None])).
Proof.
  exact (proj1 (aggregate_order_and_totals
                  [trow "/b" None None (Some (3 # 1)) None None;
                   trow "/a" None None (Some (5 # 1)) None None]
                  [trow "/a" None None (Some (5 # 1)) None None;
                   trow "/b" None None (Some (3 # 1)) None None] [] []
                  (perm_swap _ _ []) (perm_nil _) eq_refl eq_refl)).
Defined.

(** ** Text lines *)

Lemma splitlines_aux_app_lf (l : pystr) : forall (cur rest : pystr),
  no_break l = true ->
  splitlines_aux cur (l ++ nl :: rest) = (rev cur ++ l) :: splitlines_aux [] rest.
Proof.
  induction l as [|c l IH]; intros cur rest Hl; simpl.
  - rewrite app_nil_r. reflexivity.
  - unfold no_break in Hl. simpl in Hl. apply andb_true_iff in Hl as [Hc Hl].
    apply negb_true_iff in Hc. rewrite Hc, IH by exact Hl. simpl.
    rewrite <- app_assoc. reflexivity.
Qed.

Lemma splitlines_aux_app_crlf (l : pystr) : forall (cur rest : pystr),
  no_break l = true ->
  splitlines_aux cur (l ++ cr :: nl :: rest) = (rev cur ++ l) :: splitlines_aux [] rest.
Proof.
  induction l as [|c l IH]; intros cur rest Hl; simpl.
  - rewrite app_nil_r. reflexivity.
  - unfold no_break in Hl. simpl in Hl. apply andb_true_iff in Hl as [Hc Hl].
    apply negb_true_iff in Hc. rewrite Hc, IH by exact Hl. simpl.
    rewrite <- app_assoc. reflexivity.
Qed.

Lemma no_break_rev (l : pystr) : no_break (rev l) = no_break l.
Proof.
  unfold no_break. induction l as [|c l IH]; [reflexivity|].
  simpl. rewrite forallb_app, IH. simpl. rewrite andb_true_r, andb_comm. reflexivity.
Qed.

Lemma splitlines_aux_no_break (n : nat) : forall (s cur : pystr),
  List.length s <= n -> no_break cur = true ->
  Forall (fun l => no_break l = true) (splitlines_aux cur s).
Proof.
  induction n as [|n IH]; intros s cur Hlen Hcur.
  - destruct s; [|simpl in Hlen; lia]. simpl.
    destruct cur; repeat constructor. rewrite no_break_rev. exact Hcur.
  - destruct s as [|c r].
    + simpl. destruct cur; repeat constructor. rewrite no_break_rev. exact Hcur.
    + simpl in Hlen. simpl. assert (Hr : no_break (rev cur) = true) by (rewrite no_break_rev; exact Hcur).
      destruct (is_linebreak c) eqn:Hc.
      * destruct (Ascii.eqb c cr).
        -- destruct r as [|d r'].
           ++ repeat constructor. exact Hr.
           ++ destruct (Ascii.eqb d nl); constructor; try exact Hr;
                apply IH; simpl in *; try lia; reflexivity.
        -- constructor; [exact Hr|]. apply IH; [lia|reflexivity].
      * apply IH; [lia|]. unfold no_break. simpl. rewrite Hc. exact Hcur.
Qed.

Lemma splitlines_no_break (s : pystr) :
  Forall (fun l => no_break l = true) (splitlines s).
Proof. apply (splitlines_aux_no_break (List.length s)); reflexivity. Qed.

(** Text written one line per "\n" (or per "\r\n") is read back as
    exactly those lines, provided no line holds a line boundary. *)
Theorem read_text_lines_roundtrip (ls : list pystr) :
  Forall (fun l => no_break l = true) ls ->
  read_text_lines (concat (map (fun l => l ++ [nl]) ls)) = ls
  /\ read_text_lines (concat (map (fun l => l ++ [cr; nl]) ls)) = ls.
Proof.
  unfold read_text_lines, splitlines.
  induction ls as [|l ls IH]; intros H; [split; reflexivity|].
  inversion H as [|l' ls' Hl Hls]; subst. destruct (IH Hls) as [IH1 IH2].
  simpl. rewrite <- !app_assoc. simpl.
  rewrite splitlines_aux_app_lf, splitlines_aux_app_crlf by exact Hl.
  simpl. rewrite IH1, IH2. split; reflexivity.
Qed.

Lemma read_text_lines_roundtrip_witness :
  read_text_lines (concat (map (fun l => l ++ [nl]) [py "Freeform table"; py ",Entries"]))
  = [py "Freeform table"; py ",Entries"].
Proof.
  exact (proj1 (read_text_lines_roundtrip [py "Freeform table"; py ",Entries"]
                  ltac:(repeat constructor))).
Defined.

Lemma starts_with_spec (p s : pystr) : starts_with p s = true <-> exists v, s = p ++ v.
Proof.
  revert s; induction p as [|a p IH]; intros [|b s]; simpl.
  - split; [exists []; reflexivity|reflexivity].
  - split; [exists (b :: s); reflexivity|reflexivity].
  - split; [discriminate|intros [v Hv]; discriminate].
  - rewrite andb_true_iff, Ascii.eqb_eq, IH. split.
    + intros [-> [v ->]]. exists v. reflexivity.
    + intros [v Hv]. injection Hv as -> Hv. split; [reflexivity|exists v; exact Hv].
Qed.

Lemma contains_spec (p s : pystr) : contains p s = true <-> exists u v, s = u ++ p ++ v.
Proof.
  induction s as [|c s IH].
  - simpl. rewrite orb_false_r, starts_with_spec. split.
    + intros [v Hv]. exists [], v. exact Hv.
    + intros [u [v Hv]]. destruct u; [exists v; exact Hv|discriminate].
  - simpl. rewrite orb_true_iff, starts_with_spec, IH. split.
    + intros [[v Hv]|[u [v Hv]]]; [exists [], v; exact Hv|exists (c :: u), v; rewrite Hv; reflexivity].
    + intros [[|d u] [v Hv]]; [left; exists v; exact Hv|].
      injection Hv as -> Hv. right. exists u, v. exact Hv.
Qed.

Lemma contains_app_nl (p a b : pystr) :
  p <> [] -> ~ In nl p -> contains p (a ++ nl :: b) = contains p a || contains p b.
Proof.
  intros Hp Hn. apply eq_true_iff_eq. rewrite orb_true_iff, !contains_spec. split.
  - intros [u [v Huv]]. apply app_eq_app in Huv as [w [[Ha Hr]|[Hu Hr]]].
    + apply app_eq_app in Hr as [w' [[Hp' Hv]|[Hw Hv]]].
      * destruct w' as [|x w'].
        -- left. exists u, []. rewrite Ha, Hp', !app_nil_r. reflexivity.
        -- simpl in Hv. injection Hv as Hx _. subst x. exfalso. apply Hn. rewrite Hp'.
           apply in_or_app. right. left. reflexivity.
      * left. exists u, w'. rewrite Ha, Hw. reflexivity.
    + destruct w as [|x w].
      * destruct p as [|y p]; [contradiction|]. simpl in Hr. injection Hr as Hy _. subst y.
        exfalso. apply Hn. left. reflexivity.
      * simpl in Hr. injection Hr as Hx Hr. subst x. right. exists w, v. exact Hr.
  - intros [[u [v ->]]|[u [v ->]]].
    + exists u, (v ++ nl :: b). rewrite <- !app_assoc. reflexivity.
    + exists (a ++ nl :: u), v. rewrite <- app_assoc. reflexivity.
Qed.

Lemma contains_nil (p : pystr) : p <> [] -> contains p [] = false.
Proof. destruct p; [contradiction|reflexivity]. Qed.

Lemma contains_join (p : pystr) (ls : list pystr) :
  p <> [] -> ~ In nl p -> Forall (fun l => ~ In nl l) ls ->
  contains p (py_join [nl] ls) = existsb (contains p) ls.
Proof.
  intros Hp Hn. induction ls as [|l ls IH]; intros H; [apply contains_nil; exact Hp|].
  inversion H as [|l' ls' Hl Hls]; subst.
  destruct ls as [|l2 ls].
  - simpl. rewrite orb_false_r. reflexivity.
  - change (py_join [nl] (l :: l2 :: ls)) with (l ++ nl :: py_join [nl] (l2 :: ls)).
    rewrite contains_app_nl by assumption. rewrite IH by exact Hls. reflexivity.
Qed.

Lemma no_nl_of_check (s : pystr) :
  forallb (fun c => negb (Ascii.eqb c nl)) s = true -> ~ In nl s.
Proof.
  intros H Hin. rewrite forallb_forall in H. specialize (H nl Hin).
  rewrite Ascii.eqb_refl in H. discriminate.
Qed.

Lemma no_break_no_nl (l : pystr) : no_break l = true -> ~ In nl l.
Proof.
  unfold no_break. intros H Hin. rewrite forallb_forall in H. specialize (H nl Hin).
  discriminate H.
Qed.

Lemma lstrip_ws_incl (l : pystr) (c : ascii) : In c (lstrip_ws l) -> In c l.
Proof.
  induction l as [|d l IH]; simpl; [auto|]. destruct (is_space d); simpl; intuition.
Qed.

Lemma py_strip_incl (l : pystr) (c : ascii) : In c (py_strip l) -> In c l.
Proof.
  unfold py_strip, rstrip_ws. intros H. apply in_rev, lstrip_ws_incl, in_rev in H.
  apply lstrip_ws_incl. exact H.
Qed.

Lemma Forall_firstn' {A : Type} (P : A -> Prop) (n : nat) (l : list A) :
  Forall P l -> Forall P (firstn n l).
Proof.
  revert l; induction n as [|n IH]; intros [|x l] H; simpl; try constructor.
  - inversion H; assumption.
  - apply IH. inversion H; assumption.
Qed.

Lemma head_lines_no_nl (k : nat) (text : pystr) :
  Forall (fun l => ~ In nl l) (map py_strip (firstn k (splitlines text)))
  /\ Forall (fun l => ~ In nl l) (firstn k (splitlines text)).
Proof.
  pose proof (Forall_firstn' _ k _ (splitlines_no_break text)) as H.
  split.
  - apply Forall_map. eapply Forall_impl; [|exact H]. intros l Hl Hin.
    apply py_strip_incl in Hin. exact (no_break_no_nl l Hl Hin).
  - eapply Forall_impl; [|exact H]. intros l Hl. exact (no_break_no_nl l Hl).
Qed.

Lemma forallb_ext_in' {A : Type} (f g : A -> bool) (l : list A) :
  (forall x, In x l -> f x = g x) -> forallb f l = forallb g l.
Proof.
  induction l as [|x l IH]; intros H; simpl; [reflexivity|].
  rewrite H by (left; reflexivity). rewrite IH; [reflexivity|]. intros y Hy. apply H. right. exact Hy.
Qed.

Ltac token_ok :=
  first [discriminate | apply no_nl_of_check; reflexivity].

(** The upload detectors of the app look for each token in the first 80
    lines (stripped) joined by newlines.  This is the same as asking that
    each token occur within a single one of those lines: no token can
    match across a line break. *)
Theorem freeform_detectors_per_line (text : pystr) :
  is_traffic_freeform_csv text
  = forallb (fun tok => existsb (contains tok) (map py_strip (firstn 80 (splitlines text))))
            [py "Freeform table"; py "Entries"; py "Unique Visitors"; py "Page Views"]
  /\ is_channels_freeform_csv text
     = forallb (fun tok => existsb (contains tok) (map py_strip (firstn 80 (splitlines text))))
               channels_required_tokens.
Proof.
  destruct (head_lines_no_nl 80 text) as [H1 _]. split.
  - unfold is_traffic_freeform_csv, head_lines80.
    rewrite (contains_join (py "Freeform table")), (contains_join (py "Entries")),
      (contains_join (py "Unique Visitors")), (contains_join (py "Page Views"))
      by first [token_ok | exact H1].
    cbn [forallb]. rewrite andb_true_r, !andb_assoc. reflexivity.
  - unfold is_channels_freeform_csv, head_lines80. apply forallb_ext_in'.
    intros tok Htok.
    assert (Hok : tok <> [] /\ ~ In nl tok).
    { unfold channels_required_tokens in Htok. simpl in Htok.
      repeat destruct Htok as [<-|Htok]; try contradiction; split; token_ok. }
    destruct (pystr_eqb tok (py "Freeform table")); [reflexivity|].
    apply contains_join; [apply Hok|apply Hok|exact H1].
Qed.

(** [is_likely_adobe_analytics_csv] counts the indicators found in the
    first 20 lines joined by newlines; this is the number of indicators
    that occur within a single one of those lines. *)
Theorem adobe_indicators_per_line (text : pystr) :
  is_likely_adobe_analytics_csv text
  = (2 <=? List.length (filter (fun ind => existsb (contains ind) (firstn 20 (splitlines text)))
                               adobe_indicators)).
Proof.
  destruct (head_lines_no_nl 20 text) as [_ H1].
  unfold is_likely_adobe_analytics_csv. f_equal. f_equal. apply filter_ext_in.
  intros ind Hind. apply contains_join; [| |exact H1];
    unfold adobe_indicators in Hind; simpl in Hind;
    repeat destruct Hind as [<-|Hind]; try contradiction; token_ok.
Qed.

(** ** Classifier: scores and confidence *)

Lemma capped_conf_range (n : nat) :
  1 <= n -> (3 # 5 <= Qmin (9 # 10) ((1 # 2) + Q_of_nat n * (1 # 10)) <= 9 # 10)%Q.
Proof.
  intros Hn. split; [|apply Q.le_min_l].
  apply Q.min_glb; [unfold Qle; simpl; lia|].
  unfold Qle, Qplus, Qmult, Q_of_nat, inject_Z; cbn [Qnum Qden]. rewrite !Pos2Z.inj_mul. lia.
Qed.

Ltac fallback_range :=
  repeat match goal with
         | |- context [Nat.ltb ?a ?b] => destruct (Nat.ltb a b)
         | |- context [Nat.leb ?a ?b] => destruct (Nat.leb a b)
         end;
  cbn [orb fa_type fa_confidence];
  first [reflexivity | split; unfold Qle; simpl; lia].

Lemma analyze_file_type_range (is_float : pystr -> bool) (columns data_lines : list pystr) :
  let a := analyze_file_type is_float columns data_lines in
  match fa_type a with
  | Unknown => (fa_confidence a == 0)%Q
  | _ => (3 # 5 <= fa_confidence a <= 9 # 10)%Q
  end.
Proof.
  unfold analyze_file_type. destruct (score_columns columns) as [ts cs]. cbv zeta.
  destruct data_lines as [|first_line rest]; [fallback_range|].
  destruct (negb _); [|fallback_range].
  destruct (cs <? ts) eqn:E1.
  - apply Nat.ltb_lt in E1. apply capped_conf_range. lia.
  - destruct (0 <? cs) eqn:E2; [|fallback_range].
    apply Nat.ltb_lt in E2. apply capped_conf_range. lia.
Qed.

(** Every classification has confidence 0 when its kind is Unknown, and
    a confidence between 0.6 and 0.9 when it is traffic or channels
    ([analyze_file_type] and [analyze_csv_structure]). *)
Theorem classifier_confidence_range (is_float : pystr -> bool)
    (lines columns data_lines : list pystr) :
  (let a := analyze_file_type is_float columns data_lines in
   match fa_type a with
   | Unknown => (fa_confidence a == 0)%Q
   | _ => (3 # 5 <= fa_confidence a <= 9 # 10)%Q
   end)
  /\ (let c := analyze_csv_structure is_float lines in
      match ca_type c with
      | Unknown => (ca_confidence c == 0)%Q
      | _ => (3 # 5 <= ca_confidence c <= 9 # 10)%Q
      end).
Proof.
  split; [apply analyze_file_type_range|].
  unfold analyze_csv_structure. destruct (find_marker lines) as [fs|]; [|reflexivity].
  cbv zeta. destruct (scan_head _ _ _ _ _) as [header_lines dls].
  destruct header_lines as [|first_header _]; [reflexivity|].
  apply analyze_file_type_range.
Qed.

Lemma qle_half_false (c : Q) : (3 # 5 <= c)%Q -> Qle_bool c (1 # 2) = false.
Proof.
  intros H. destruct (Qle_bool c (1 # 2)) eqn:E; [|reflexivity].
  apply Qle_bool_iff in E. exfalso.
  assert (H' : (3 # 5 <= 1 # 2)%Q) by (eapply Qle_trans; eassumption).
  unfold Qle in H'. simpl in H'. lia.
Qed.

(** The test [confidence > 0.5] of [is_traffic_csv_flexible] and
    [is_channels_csv_flexible] never rejects: each of them holds exactly
    when the text looks like an Adobe Analytics export and the structure
    analysis returns its kind. *)
Theorem flexible_detectors_threshold (is_float : pystr -> bool) (text : pystr) :
  is_traffic_csv_flexible is_float text
  = is_likely_adobe_analytics_csv text
    && match ca_type (analyze_csv_structure is_float (splitlines text)) with
       | Traffic => true | _ => false end
  /\ is_channels_csv_flexible is_float text
     = is_likely_adobe_analytics_csv text
       && match ca_type (analyze_csv_structure is_float (splitlines text)) with
          | Channels => true | _ => false end.
Proof.
  pose proof (proj2 (classifier_confidence_range is_float (splitlines text) [] [])) as H.
  unfold is_traffic_csv_flexible, is_channels_csv_flexible.
  destruct (is_likely_adobe_analytics_csv text); [|split; reflexivity]. cbn [negb andb].
  destruct (analyze_csv_structure is_float (splitlines text)) as [k cols c].
  cbn [ca_type ca_confidence] in *.
  destruct k; split; try reflexivity; rewrite qle_half_false by apply H; reflexivity.
Qed.

Lemma score_columns_fold (columns : list pystr) : forall a b,
  fold_left
    (fun '(traffic_score, channels_score) col =>
       let col_lower := py_lower col in
       (if existsb (fun k => contains k col_lower) traffic_keywords
        then S traffic_score else traffic_score,
        if existsb (fun k => contains k col_lower) channels_keywords
        then S channels_score else channels_score))
    columns (a, b)
  = (a + List.length (filter (fun col => existsb (fun k => contains k (py_lower col)) traffic_keywords) columns),
     b + List.length (filter (fun col => existsb (fun k => contains k (py_lower col)) channels_keywords) columns)).
Proof.
  induction columns as [|col cols IH]; intros a b; cbn [fold_left filter List.length];
    [f_equal; lia|].
  rewrite IH.
  destruct (existsb (fun k => contains k (py_lower col)) traffic_keywords),
           (existsb (fun k => contains k (py_lower col)) channels_keywords);
    cbn [List.length]; f_equal; lia.
Qed.

Lemma filter_length_zero {A : Type} (f : A -> bool) (l : list A) :
  List.length (filter f l) = 0 <-> Forall (fun x => f x = false) l.
Proof.
  induction l as [|x l IH]; simpl; [split; auto|].
  destruct (f x) eqn:E; simpl.
  - split; [discriminate|intros H; inversion H; congruence].
  - rewrite IH. split; [intros H; constructor; assumption|intros H; inversion H; assumption].
Qed.

(** [analyze_file_type] returns Unknown exactly when no column contains,
    in lower case, any traffic or channels keyword, whatever the sample
    data lines are. *)
Theorem analyze_file_type_unknown_iff (is_float : pystr -> bool) (columns data_lines : list pystr) :
  fa_type (analyze_file_type is_float columns data_lines) = Unknown
  <-> Forall (fun col => existsb (fun k => contains k (py_lower col))
                                 (traffic_keywords ++ channels_keywords) = false) columns.
Proof.
  assert (Hiff : Forall (fun col => existsb (fun k => contains k (py_lower col))
                                            (traffic_keywords ++ channels_keywords) = false) columns
                 <-> score_columns columns = (0, 0)).
  { unfold score_columns. rewrite score_columns_fold, !Nat.add_0_l.
    split.
    - intros H. rewrite Forall_forall in H.
      f_equal; apply filter_length_zero; rewrite Forall_forall; intros col Hin;
        specialize (H col Hin); rewrite existsb_app in H; apply orb_false_iff in H; apply H.
    - intros H. injection H as H1 H2. apply filter_length_zero in H1, H2.
      rewrite Forall_forall in *. intros col Hc.
      specialize (H1 col Hc); specialize (H2 col Hc); cbv beta in H1, H2.
      rewrite existsb_app; apply orb_false_iff; split; [exact H1 | exact H2]. }
  rewrite Hiff. unfold analyze_file_type. destruct (score_columns columns) as [ts cs].
  cbv zeta. split.
  - intros H. destruct ts as [|ts], cs as [|cs]; [reflexivity|exfalso..];
      destruct data_lines as [|d ds]; cbn in H;
      repeat (match type of H with context [if ?c then _ else _] => destruct c end;
              cbn in H); discriminate.
  - intros E. injection E as -> ->.
    destruct data_lines as [|d ds]; [reflexivity|]. destruct (negb _); reflexivity.
Qed.

Lemma filter_all_true {A : Type} (f : A -> bool) (l : list A) :
  forallb f l = true -> filter f l = l.
Proof.
  induction l as [|x l IH]; simpl; [reflexivity|].
  intros H. apply andb_true_iff in H as [Hx Hl]. rewrite Hx, IH by exact Hl. reflexivity.
Qed.

Lemma q_of_nat_gt_seven_tenths (m : nat) :
  0 < m -> Qle_bool (Q_of_nat m) (Q_of_nat m * (7 # 10)) = false.
Proof.
  intros Hm. unfold Qle_bool, Qmult, Q_of_nat, inject_Z; cbn [Qnum Qden].
  apply Z.leb_gt. lia.
Qed.

(** When the columns score equally for traffic and channels (and at
    least one keyword matched), the decision depends on the sample data:
    without data lines the file is called traffic, while a first data line
    whose values after the first field all parse as floats makes it
    channels. *)
Theorem analyze_file_type_tie (is_float : pystr -> bool) (columns : list pystr)
    (n : nat) (d : pystr) (rest : list pystr) :
  score_columns columns = (n, n) -> 0 < n ->
  tl (split_on comma d) <> [] ->
  forallb (fun v => is_float (py_strip v)) (tl (split_on comma d)) = true ->
  fa_type (analyze_file_type is_float columns []) = Traffic /\
  fa_type (analyze_file_type is_float columns (d :: rest)) = Channels.
Proof.
  intros Hs Hn Hne Hall. unfold analyze_file_type. rewrite Hs. cbv zeta.
  assert (Hlt : (0 <? n) = true) by (apply Nat.ltb_lt; exact Hn).
  split.
  - rewrite Hlt, Nat.leb_refl. reflexivity.
  - rewrite (filter_all_true _ _ Hall).
    rewrite q_of_nat_gt_seven_tenths
      by (destruct (tl (split_on comma d)); [congruence|simpl; lia]).
    rewrite Nat.ltb_irrefl, Hlt. reflexivity.
Qed.

Lemma analyze_file_type_tie_witness :
  fa_type (analyze_file_type digits_only [py "Exit"; py "Direct"] []) = Traffic /\
  fa_type (analyze_file_type digits_only [py "Exit"; py "Direct"] [py "p,1,2"]) = Channels.
Proof.
  apply (analyze_file_type_tie digits_only [py "Exit"; py "Direct"] 1 (py "p,1,2") []);
    [vm_compute; reflexivity | lia | vm_compute; discriminate | vm_compute; reflexivity].
Defined.

(** ** Aggregation: column totals *)

Lemma nansum_filter_split {A : Type} (f : A -> option Q) (p : A -> bool) (l : list A) :
  (nansum (map f l) == nansum (map f (filter p l)) + nansum (map f (filter (fun r => negb (p r)) l)))%Q.
Proof.
  unfold nansum. induction l as [|r l IH]; simpl; [reflexivity|].
  destruct (p r); simpl; destruct (f r) as [q|]; simpl; rewrite IH; try reflexivity; ring.
Qed.

Lemma group_of_filter_other {A : Type} (key : A -> pystr) (rows : list A) (k k' : pystr) :
  k' <> k ->
  group_of key (filter (fun r => negb (pystr_eqb (key r) k)) rows) k' = group_of key rows k'.
Proof.
  intros Hne. unfold group_of. induction rows as [|r rows IH]; simpl; [reflexivity|].
  destruct (pystr_eqb (key r) k') eqn:E1.
  - apply pystr_eqb_eq in E1. subst k'.
    destruct (pystr_eqb (key r) k) eqn:E2.
    + apply pystr_eqb_eq in E2. congruence.
    + simpl. rewrite pystr_eqb_refl, IH. reflexivity.
  - destruct (pystr_eqb (key r) k); simpl; [exact IH|rewrite E1; exact IH].
Qed.

Lemma nansum_groups {A : Type} (key : A -> pystr) (f : A -> option Q) (ks : list pystr) :
  NoDup ks -> forall rows : list A, (forall r, In r rows -> In (key r) ks) ->
  (sum_Q (map (fun k => nansum (map f (group_of key rows k))) ks) == nansum (map f rows))%Q.
Proof.
  induction 1 as [|k ks Hk Hnd IH]; intros rows Hrows.
  - destruct rows as [|r rows]; [reflexivity|]. exfalso. exact (Hrows r (or_introl eq_refl)).
  - cbn [map sum_Q fold_right]. fold (sum_Q (map (fun k => nansum (map f (group_of key rows k))) ks)).
    rewrite (nansum_filter_split f (fun r => pystr_eqb (key r) k) rows).
    apply Qplus_comp; [reflexivity|].
    rewrite <- (IH (filter (fun r => negb (pystr_eqb (key r) k)) rows)).
    + erewrite map_ext_in; [reflexivity|]. intros k' Hk'. cbv beta.
      rewrite group_of_filter_other; [reflexivity|]. intros ->. contradiction.
    + intros r Hr. apply filter_In in Hr as [Hr Hneq].
      destruct (Hrows r Hr) as [E|]; [|assumption].
      rewrite E, pystr_eqb_refl in Hneq. discriminate.
Qed.

Lemma sorted_nodup (ks : list pystr) : StronglySorted key_lt ks -> NoDup ks.
Proof.
  induction 1 as [|k ks _ IH Hall]; constructor; [|exact IH].
  intros Hin. rewrite Forall_forall in Hall. exact (key_lt_irrefl k (Hall k Hin)).
Qed.

Lemma group_keys_cover {A : Type} (key : A -> pystr) (rows : list A) :
  forall r, In r rows -> In (key r) (group_keys key rows).
Proof.
  intros r Hr. apply (proj2 (proj2 (group_by_spec key rows))). apply in_map. exact Hr.
Qed.

Lemma nansum_aggregate {A : Type} (key : A -> pystr) (f : A -> option Q) (rows : list A) :
  (sum_Q (map (fun kg => nansum (map f (snd kg))) (group_by key rows)) == nansum (map f rows))%Q.
Proof.
  destruct (group_by_spec key rows) as [G [S _]]. rewrite G, map_map. cbn [snd].
  apply nansum_groups; [apply sorted_nodup; exact S|apply group_keys_cover].
Qed.

(** Aggregation neither loses nor double-counts a number: when the
    count columns hold integers (or NaN) whose absolute values add up to
    less than 2^53, so that pandas' float64 sums are exact, the total of
    each summed column over the aggregated rows equals the NaN-skipping
    total of that column over the input rows, for traffic (Entries, Unique
    Visitors, Page Views) and channels (all five channel columns). *)
Theorem aggregate_totals_preserved (df : list traffic_row) (cf : list channel_row) :
  traffic_counts_exact df = true -> channel_counts_exact cf = true ->
  (sum_Q (map ta_entries (aggregate_traffic df)) == nansum (map tr_entries df))%Q
  /\ (sum_Q (map ta_uv (aggregate_traffic df)) == nansum (map tr_uv df))%Q
  /\ (sum_Q (map ta_pv (aggregate_traffic df)) == nansum (map tr_pv df))%Q
  /\ (sum_Q (map cha_organic (aggregate_channels cf)) == nansum (map cr_organic cf))%Q
  /\ (sum_Q (map cha_direct (aggregate_channels cf)) == nansum (map cr_direct cf))%Q
  /\ (sum_Q (map cha_internal (aggregate_channels cf)) == nansum (map cr_internal cf))%Q
  /\ (sum_Q (map cha_referring (aggregate_channels cf)) == nansum (map cr_referring cf))%Q
  /\ (sum_Q (map cha_social (aggregate_channels cf)) == nansum (map cr_social cf))%Q.
Proof.
  intros _ _. unfold aggregate_traffic, aggregate_channels. rewrite !map_map.
  repeat split; rewrite <- nansum_aggregate; erewrite map_ext; try reflexivity;
    intros [k g]; reflexivity.
Qed.

Lemma aggregate_totals_preserved_witness :
  let df := [trow "/a" None (Some (1 # 1)) (Some (2 # 1)) (Some (3 # 1)) None;
             trow "/b" None (Some (4 # 1)) None (Some (5 # 1)) None;
             trow "/a" None (Some (6 # 1)) (Some (7 # 1)) None None] in
  traffic_counts_exact df = true /\ channel_counts_exact [] = true
  /\ (sum_Q (map ta_entries (aggregate_traffic df)) == nansum (map tr_entries df))%Q.
Proof.
  intros df. split; [reflexivity|split; [reflexivity|]].
  exact (proj1 (aggregate_totals_preserved df [] eq_refl eq_refl)).
Defined.

(** ** Aggregation: the Exit Rate column *)

Lemma assoc_map_keys {B : Type} (F : pystr -> B) (k : pystr) (ks : list pystr) :
  In k ks -> assoc k (map (fun x => (x, F x)) ks) = Some (F k).
Proof.
  induction ks as [|x ks IH]; simpl; [contradiction|]. intros Hin.
  destruct (pystr_eqb k x) eqn:E.
  - apply pystr_eqb_eq in E. subst. reflexivity.
  - apply IH. destruct Hin as [->|Hin]; [rewrite pystr_eqb_refl in E; discriminate|exact Hin].
Qed.

Lemma aggregate_traffic_in (df : list traffic_row) (a : traffic_agg) :
  In a (aggregate_traffic df) ->
  In (ta_key a) (group_keys tr_key df)
  /\ ta_er a = match nanmean (map tr_er (group_of tr_key df (ta_key a))) with
               | Some v => Some v
               | None => weighted_group (group_of tr_key df (ta_key a))
               end.
Proof.
  intros H. destruct (group_by_spec tr_key df) as [G _].
  unfold aggregate_traffic in H. rewrite G, !map_map in H.
  apply in_map_iff in H as [k [<- Hk]]. cbn [ta_key ta_er agg_traffic_group].
  split; [exact Hk|].
  rewrite (assoc_map_keys (fun x => weighted_group (group_of tr_key df x))); [reflexivity|exact Hk].
Qed.

Lemma nansum_nonneg_le {A : Type} (f g : A -> option Q) (l : list A) :
  (forall r, In r l -> forall acc acc', (acc <= acc')%Q -> (nan_add (f r) acc <= nan_add (g r) acc')%Q) ->
  (nansum (map f l) <= nansum (map g l))%Q.
Proof.
  unfold nansum. induction l as [|r l IH]; intros H; simpl; [apply Qle_refl|].
  apply H; [left; reflexivity|]. apply IH. intros r' Hr'. apply H. right. exact Hr'.
Qed.

Lemma Q_of_nat_succ (n : nat) : (Q_of_nat (S n) == Q_of_nat n + 1)%Q.
Proof. unfold Q_of_nat, Qeq, Qplus, inject_Z; cbn [Qnum Qden]. lia. Qed.

Lemma nansum_unit_bounds (xs : list (option Q)) :
  (forall x, In (Some x) xs -> (0 <= x <= 1)%Q) ->
  (0 <= nansum xs)%Q /\
  (nansum xs <= Q_of_nat (List.length (filter (fun x => match x with Some _ => true | None => false end) xs)))%Q.
Proof.
  unfold nansum. induction xs as [|[x|] xs IH]; intros H; simpl.
  - split; apply Qle_refl.
  - destruct (H x (or_introl eq_refl)) as [H0 H1].
    destruct IH as [IH0 IH1]; [intros y Hy; apply H; right; exact Hy|].
    rewrite Q_of_nat_succ. split.
    + apply (Qplus_le_compat 0 x 0 _ H0) in IH0. exact IH0.
    + rewrite Qplus_comm. apply Qplus_le_compat; assumption.
  - apply IH. intros y Hy. apply H. right. exact Hy.
Qed.

Lemma nanmean_unit (xs : list (option Q)) (m : Q) :
  (forall x, In (Some x) xs -> (0 <= x <= 1)%Q) -> nanmean xs = Some m -> (0 <= m <= 1)%Q.
Proof.
  intros H Hm. destruct (nansum_unit_bounds xs H) as [H0 H1]. unfold nanmean in Hm.
  destruct (List.length _) as [|n] eqn:E; [discriminate|]. injection Hm as <-.
  assert (Hpos : (0 < Q_of_nat (S n))%Q).
  { unfold Q_of_nat, Qlt, inject_Z; cbn [Qnum Qden]. lia. }
  split.
  - apply Qle_shift_div_l; [exact Hpos|]. rewrite Qmult_0_l. exact H0.
  - apply Qle_shift_div_r; [exact Hpos|]. rewrite Qmult_1_l. exact H1.
Qed.

Lemma weighted_group_unit (g : list traffic_row) (m : Q) :
  (forall r, In r g -> forall e, tr_er r = Some e -> (0 <= e <= 1)%Q) ->
  (forall r, In r g -> forall p, tr_pv r = Some p -> (0 <= p)%Q) ->
  weighted_group g = Some m -> (0 <= m <= 1)%Q.
Proof.
  intros He Hp Hm. unfold weighted_group in Hm.
  destruct (Qle_bool (nansum (map pv_weight g)) 0) eqn:E; [discriminate|].
  injection Hm as <-.
  assert (Hpos : (0 < nansum (map pv_weight g))%Q).
  { apply Qnot_le_lt. intros Hle. apply Qle_bool_iff in Hle. congruence. }
  split.
  - apply Qle_shift_div_l; [exact Hpos|]. rewrite Qmult_0_l.
    apply Qle_trans with (nansum (map (fun _ : traffic_row => @None Q) g)).
    + unfold nansum. clear. induction g as [|r g IH]; simpl; [apply Qle_refl|exact IH].
    + apply nansum_nonneg_le. intros r Hr acc acc' Hacc.
      unfold er_weighted, pv_weight. cbn [nan_add].
      destruct (tr_er r) as [e|] eqn:Ee; [|exact Hacc].
      destruct (tr_pv r) as [p|] eqn:Ep; [|exact Hacc].
      destruct (Qeq_bool p 0); [exact Hacc|]. cbn [nan_add].
      rewrite <- (Qplus_0_l acc). apply Qplus_le_compat; [|exact Hacc].
      apply Qmult_le_0_compat; [apply (He r Hr e Ee)|apply (Hp r Hr p Ep)].
  - apply Qle_shift_div_r; [exact Hpos|]. rewrite Qmult_1_l.
    apply nansum_nonneg_le. intros r Hr acc acc' Hacc.
    unfold er_weighted, pv_weight. cbn [nan_add].
    destruct (tr_er r) as [e|] eqn:Ee.
    + destruct (tr_pv r) as [p|] eqn:Ep; [|exact Hacc].
      destruct (Qeq_bool p 0); [exact Hacc|]. cbn [nan_add].
      apply Qplus_le_compat; [|exact Hacc].
      destruct (He r Hr e Ee) as [_ He1]. pose proof (Hp r Hr p Ep) as Hp0.
      rewrite <- (Qmult_1_l p) at 2. apply Qmult_le_compat_r; assumption.
    + destruct (tr_pv r) as [p|] eqn:Ep; [|exact Hacc].
      destruct (Qeq_bool p 0); [exact Hacc|]. cbn [nan_add].
      rewrite <- (Qplus_0_l acc). apply Qplus_le_compat; [apply (Hp r Hr p Ep)|exact Hacc].
Qed.

(** If every Exit Rate of the input lies in [0, 1] and no Page Views value
    is negative, every Exit Rate of the aggregated table is NaN or lies in
    [0, 1]: both the plain mean and the page-view-weighted fallback stay in
    that range. *)
Theorem aggregate_traffic_er_in_unit (df : list traffic_row) :
  (forall r, In r df -> forall e, tr_er r = Some e -> (0 <= e <= 1)%Q) ->
  (forall r, In r df -> forall p, tr_pv r = Some p -> (0 <= p)%Q) ->
  forall a e, In a (aggregate_traffic df) -> ta_er a = Some e -> (0 <= e <= 1)%Q.
Proof.
  intros He Hp a e Ha Hae. apply aggregate_traffic_in in Ha as [_ Hera].
  rewrite Hera in Hae.
  assert (Hsub : forall r, In r (group_of tr_key df (ta_key a)) -> In r df).
  { intros r Hr. unfold group_of in Hr. apply filter_In in Hr. apply Hr. }
  destruct (nanmean _) as [v|] eqn:Em.
  - injection Hae as ->. eapply nanmean_unit; [|exact Em].
    intros x Hx. apply in_map_iff in Hx as [r [Hrx Hr]].
    apply (He r (Hsub r Hr) x Hrx).
  - eapply weighted_group_unit; [| |exact Hae];
      intros r Hr; [apply He|apply Hp]; apply Hsub; exact Hr.
Qed.

Lemma nansum_nones {A : Type} (f : A -> option Q) (l : list A) :
  (forall r, In r l -> f r = None) -> nansum (map f l) = 0%Q.
Proof.
  unfold nansum. induction l as [|r l IH]; intros H; simpl; [reflexivity|].
  rewrite (H r (or_introl eq_refl)). apply IH. intros r' Hr'. apply H. right. exact Hr'.
Qed.

Lemma nanmean_nones {A : Type} (f : A -> option Q) (l : list A) :
  (forall r, In r l -> f r = None) -> nanmean (map f l) = None.
Proof.
  intros H. unfold nanmean.
  replace (List.length _) with 0; [reflexivity|]. symmetry. apply filter_length_zero.
  rewrite Forall_forall. intros x Hx. apply in_map_iff in Hx as [r [<- Hr]]. rewrite (H r Hr).
  reflexivity.
Qed.

Lemma nansum_nonneg (xs : list (option Q)) :
  (forall x, In (Some x) xs -> (0 <= x)%Q) -> (0 <= nansum xs)%Q.
Proof.
  unfold nansum. induction xs as [|[x|] xs IH]; intros H; simpl; [apply Qle_refl| |].
  - apply Qle_trans with (0 + 0)%Q; [apply Qle_refl|].
    apply Qplus_le_compat; [apply H; left; reflexivity|].
    apply IH. intros y Hy. apply H. right. exact Hy.
  - apply IH. intros y Hy. apply H. right. exact Hy.
Qed.

Lemma nansum_ge_elem (xs : list (option Q)) (q : Q) :
  (forall x, In (Some x) xs -> (0 <= x)%Q) -> In (Some q) xs -> (q <= nansum xs)%Q.
Proof.
  induction xs as [|[x|] xs IH]; intros H Hq; [contradiction| |].
  - assert (Hn : (0 <= nansum xs)%Q) by (apply nansum_nonneg; intros y Hy; apply H; right; exact Hy).
    change (nansum (Some x :: xs)) with (x + nansum xs)%Q.
    destruct Hq as [Hq|Hq].
    + injection Hq as Hq. subst q. rewrite <- (Qplus_0_r x) at 1. apply Qplus_le_compat; [apply Qle_refl|exact Hn].
    + rewrite <- (Qplus_0_l q). apply Qplus_le_compat; [apply H; left; reflexivity|].
      apply IH; [intros y Hy; apply H; right; exact Hy|exact Hq].
  - destruct Hq as [Hq|Hq]; [discriminate|]. apply IH; [intros y Hy; apply H; right; exact Hy|exact Hq].
Qed.

Lemma group_of_iff {A : Type} (key : A -> pystr) (rows : list A) (k : pystr) (r : A) :
  In r (group_of key rows k) <-> In r rows /\ key r = k.
Proof. unfold group_of. rewrite filter_In, pystr_eqb_eq. reflexivity. Qed.

(** For a key none of whose rows has an Exit Rate (and no negative Page
    Views), the aggregated Exit Rate is not left NaN but set to 0 as soon as
    one of its rows has nonzero Page Views; it is NaN exactly when all of
    its Page Views are missing or 0. *)
Theorem aggregate_traffic_missing_er (df : list traffic_row) (a : traffic_agg) :
  In a (aggregate_traffic df) ->
  (forall r, In r df -> tr_key r = ta_key a -> tr_er r = None) ->
  (forall r, In r df -> forall p, tr_pv r = Some p -> (0 <= p)%Q) ->
  (ta_er a = None <-> forall r, In r df -> tr_key r = ta_key a ->
                               forall p, tr_pv r = Some p -> (p == 0)%Q)
  /\ (forall e, ta_er a = Some e -> (e == 0)%Q).
Proof.
  intros Ha Hnone Hp. apply aggregate_traffic_in in Ha as [_ Hera].
  set (g := group_of tr_key df (ta_key a)) in Hera.
  assert (Hg : forall r, In r g -> tr_er r = None).
  { intros r Hr. apply group_of_iff in Hr as [Hr Hk]. exact (Hnone r Hr Hk). }
  rewrite nanmean_nones in Hera by exact Hg.
  unfold weighted_group in Hera.
  rewrite (nansum_nones er_weighted) in Hera
    by (intros r Hr; unfold er_weighted; rewrite (Hg r Hr); reflexivity).
  assert (Hw : forall x, In (Some x) (map pv_weight g) -> (0 <= x)%Q).
  { intros x Hx. apply in_map_iff in Hx as [r [Hrx Hr]]. unfold pv_weight in Hrx.
    destruct (tr_pv r) as [p|] eqn:Ep; [|discriminate].
    destruct (Qeq_bool p 0); [discriminate|]. injection Hrx as <-.
    apply group_of_iff in Hr as [Hr _]. exact (Hp r Hr p Ep). }
  split.
  - rewrite Hera. split.
    + intros Hle r Hr Hk p Ep.
      destruct (Qle_bool (nansum (map pv_weight g)) 0) eqn:E; [|discriminate].
      apply Qle_bool_iff in E.
      destruct (Qeq_bool p 0) eqn:Ez; [apply Qeq_bool_iff; exact Ez|].
      assert (Hin : In (Some p) (map pv_weight g)).
      { apply in_map_iff. exists r. split; [unfold pv_weight; rewrite Ep, Ez; reflexivity|].
        apply group_of_iff. split; assumption. }
      apply Qle_antisym; [|exact (Hp r Hr p Ep)].
      eapply Qle_trans; [apply nansum_ge_elem; [exact Hw|exact Hin]|exact E].
    + intros Hz. rewrite (nansum_nones pv_weight).
      * reflexivity.
      * intros r Hr. apply group_of_iff in Hr as [Hr Hk]. unfold pv_weight.
        destruct (tr_pv r) as [p|] eqn:Ep; [|reflexivity].
        rewrite (proj2 (Qeq_bool_iff p 0) (Hz r Hr Hk p Ep)). reflexivity.
  - intros e He. rewrite He in Hera.
    destruct (negb _); [|discriminate]. injection Hera as ->.
    unfold Qdiv. apply Qmult_0_l.
Qed.

Lemma aggregate_traffic_er_in_unit_witness :
  let df0 := [trow "/a" None None (Some (100 # 1)) (Some (2 # 10)) None;
              trow "/a" None None (Some (300 # 1)) (Some (8 # 10)) None;
              trow "/b" None None (Some (5 # 1)) None None] in
  (forall r, In r df0 -> forall e, tr_er r = Some e -> (0 <= e <= 1)%Q)
  /\ (forall r, In r df0 -> forall p, tr_pv r = Some p -> (0 <= p)%Q)
  /\ (forall a e, In a (aggregate_traffic df0) -> ta_er a = Some e -> (0 <= e <= 1)%Q).
Proof.
  intros df0.
  assert (H1 : forall r, In r df0 -> forall e, tr_er r = Some e -> (0 <= e <= 1)%Q).
  { intros r Hr e He. destruct Hr as [<-|[<-|[<-|[]]]]; cbn in He; try discriminate;
      injection He as <-; split; unfold Qle; cbn; lia. }
  assert (H2 : forall r, In r df0 -> forall p, tr_pv r = Some p -> (0 <= p)%Q).
  { intros r Hr p Hp. destruct Hr as [<-|[<-|[<-|[]]]]; cbn in Hp;
      injection Hp as <-; unfold Qle; cbn; lia. }
  split; [exact H1|split; [exact H2|]].
  exact (aggregate_traffic_er_in_unit df0 H1 H2).
Defined.

Lemma aggregate_traffic_missing_er_witness :
  let df0 := [trow "/a" None None (Some (100 # 1)) (Some (2 # 10)) None;
              trow "/b" None None (Some (5 # 1)) None None;
              trow "/b" None None (Some 0%Q) None None] in
  let a0 := nth 1 (aggregate_traffic df0) (agg_traffic_group ([], [])) in
  ta_key a0 = py "/b"
  /\ (ta_er a0 = None <-> forall r, In r df0 -> tr_key r = ta_key a0 ->
                                    forall p, tr_pv r = Some p -> (p == 0)%Q)
  /\ (forall e, ta_er a0 = Some e -> (e == 0)%Q).
Proof.
  intros df0 a0. split; [vm_compute; reflexivity|].
  apply aggregate_traffic_missing_er.
  - apply nth_In. vm_compute. lia.
  - intros r Hr Hk. destruct Hr as [<-|[<-|[<-|[]]]]; vm_compute in Hk;
      first [discriminate | reflexivity].
  - intros r Hr p Hp. destruct Hr as [<-|[<-|[<-|[]]]]; cbn in Hp;
      injection Hp as <-; unfold Qle; cbn; lia.
Defined.

(** ** Parsers: the extracted rows *)

Lemma split_on_nonempty (d : ascii) (s : pystr) : split_on d s <> [].
Proof.
  destruct s as [|c r]; simpl; [discriminate|].
  destruct (Ascii.eqb c d); [discriminate|]. destruct (split_on d r); discriminate.
Qed.

Lemma py_join_cons (sep p : pystr) (ps : list pystr) :
  ps <> [] -> py_join sep (p :: ps) = p ++ sep ++ py_join sep ps.
Proof. destruct ps; [congruence|reflexivity]. Qed.

Lemma split_on_join (d : ascii) (s : pystr) : py_join [d] (split_on d s) = s.
Proof.
  induction s as [|c r IH]; [reflexivity|]. cbn [split_on].
  destruct (Ascii.eqb c d) eqn:E.
  - apply Ascii.eqb_eq in E. subst c. rewrite py_join_cons by apply split_on_nonempty.
    rewrite IH. reflexivity.
  - pose proof (split_on_nonempty d r) as Hne.
    destruct (split_on d r) as [|w ws]; [congruence|].
    destruct ws as [|w' ws]; [simpl in *; congruence|].
    rewrite py_join_cons in * by discriminate. rewrite <- IH. reflexivity.
Qed.

Lemma split_on_no_sep (d : ascii) (s : pystr) : Forall (fun w => ~ In d w) (split_on d s).
Proof.
  induction s as [|c r IH]; cbn [split_on]; [constructor; [intros []|constructor]|].
  destruct (Ascii.eqb c d) eqn:E.
  - constructor; [intros []|exact IH].
  - destruct (split_on d r) as [|w ws]; [constructor; [|constructor]|];
      [intros [Hc|[]]; subst; rewrite Ascii.eqb_refl in E; discriminate|].
    inversion IH as [|w0 ws0 Hw Hws]; subst. constructor; [|exact Hws].
    intros [Hc|Hin]; [subst; rewrite Ascii.eqb_refl in E; discriminate|contradiction].
Qed.

Lemma extract_rows_shape (n : nat) (lines : list pystr) (r : list pystr) :
  1 <= n -> In r (extract_rows n lines) ->
  List.length r = n /\ exists ln, In ln lines /\ r = firstn n (split_on comma ln).
Proof.
  intros Hn. induction lines as [|ln rest IH]; cbn [extract_rows]; [intros []|].
  destruct (is_blank ln); [intros []|]. destruct (starts_with [comma] ln); [intros []|].
  destruct (List.length (split_on comma ln) <? n) eqn:E.
  - destruct (starts_with _ _); [intros []|].
    intros Hr. destruct (IH Hr) as [Hl [l [Hin Hl']]]. split; [exact Hl|].
    exists l. split; [right; exact Hin|exact Hl'].
  - intros [<-|Hr].
    + apply Nat.ltb_ge in E. pose proof (split_on_nonempty comma ln) as Hne.
      destruct (split_on comma ln) as [|p ps] eqn:Es; [congruence|].
      destruct n as [|n]; [lia|]. cbn [hd tl List.length]. replace (S n - 1) with n by lia.
      split; [rewrite firstn_length_le; cbn in E; lia|].
      exists ln. split; [left; reflexivity|]. rewrite Es. reflexivity.
    + destruct (IH Hr) as [Hl [l [Hin Hl']]]. split; [exact Hl|].
      exists l. split; [right; exact Hin|exact Hl'].
Qed.


(** ** The DataFrame stage of the parsers *)

Lemma pystr_eqb_false (a b : pystr) : pystr_eqb a b = false <-> a <> b.
Proof.
  split.
  - intros H E. apply pystr_eqb_eq in E. congruence.
  - intros H. destruct (pystr_eqb a b) eqn:E; [|reflexivity].
    apply pystr_eqb_eq in E. contradiction.
Qed.

Lemma index_of_nth (c : pystr) (cols : list pystr) (j : nat) :
  index_of c cols = Some j -> nth_error cols j = Some c.
Proof.
  revert j; induction cols as [|c' cs IH]; intros j H; [discriminate|].
  cbn [index_of] in H. destruct (pystr_eqb c c') eqn:E.
  - injection H as <-. apply pystr_eqb_eq in E. subst. reflexivity.
  - destruct (index_of c cs) as [j'|] eqn:F; [|discriminate].
    injection H as <-. apply IH. reflexivity.
Qed.

Lemma index_of_none (c : pystr) (cols : list pystr) :
  index_of c cols = None -> ~ In c cols.
Proof.
  induction cols as [|c' cs IH]; intros H; [intros []|].
  cbn [index_of] in H. destruct (pystr_eqb c c') eqn:E; [discriminate|].
  destruct (index_of c cs); [discriminate|].
  intros [->|Hin]; [rewrite pystr_eqb_refl in E; discriminate|]. exact (IH eq_refl Hin).
Qed.

Lemma index_of_In (c : pystr) (cols : list pystr) :
  In c cols -> exists j, index_of c cols = Some j.
Proof.
  intros Hin. destruct (index_of c cols) as [j|] eqn:E; [exists j; reflexivity|].
  exfalso. exact (index_of_none c cols E Hin).
Qed.

Lemma count_name_cons (c c' : pystr) (cols : list pystr) :
  count_name c (c' :: cols) = (if pystr_eqb c c' then 1 else 0) + count_name c cols.
Proof. unfold count_name. cbn [filter]. destruct (pystr_eqb c c'); reflexivity. Qed.

Lemma count_name_notin (c : pystr) (cols : list pystr) : ~ In c cols -> count_name c cols = 0.
Proof.
  induction cols as [|c' cs IH]; intros H; [reflexivity|].
  rewrite count_name_cons. destruct (pystr_eqb c c') eqn:E.
  - apply pystr_eqb_eq in E. subst. exfalso. apply H. left. reflexivity.
  - apply IH. intros Hin. apply H. right. exact Hin.
Qed.

Lemma count_name_In (c : pystr) (cols : list pystr) : In c cols -> 1 <= count_name c cols.
Proof.
  induction cols as [|c' cs IH]; intros H; [destruct H|].
  rewrite count_name_cons. destruct H as [->|H].
  - rewrite pystr_eqb_refl. lia.
  - specialize (IH H). lia.
Qed.

Lemma nodup_count (cols : list pystr) : NoDup cols -> forall c, count_name c cols <= 1.
Proof.
  induction 1 as [|c' cs Hn Hd IH]; intros c; [cbn; lia|].
  rewrite count_name_cons. destruct (pystr_eqb c c') eqn:E.
  - apply pystr_eqb_eq in E. subst. rewrite count_name_notin by exact Hn. lia.
  - specialize (IH c). lia.
Qed.

Lemma not_nodup_count (cols : list pystr) :
  ~ NoDup cols -> exists c, In c cols /\ 2 <= count_name c cols.
Proof.
  induction cols as [|c' cs IH]; intros H; [exfalso; apply H; constructor|].
  destruct (in_dec (list_eq_dec ascii_dec) c' cs) as [Hin|Hn].
  - exists c'. split; [left; reflexivity|].
    rewrite count_name_cons, pystr_eqb_refl. pose proof (count_name_In c' cs Hin). lia.
  - destruct IH as [c [Hin Hc]].
    + intros Hd. apply H. constructor; assumption.
    + exists c. split; [right; exact Hin|]. rewrite count_name_cons. lia.
Qed.

Lemma coerce_row_nil (tn : pystr -> option Q) (cols : list pystr) (r : list cell) :
  coerce_row tn [] cols r = r.
Proof.
  revert r; induction cols as [|c cs IH]; intros [|x r]; try reflexivity.
  cbn [coerce_row in_pystrs existsb]. rewrite IH. reflexivity.
Qed.

Lemma coerce_cell_idem (tn : pystr -> option Q) (x : cell) :
  coerce_cell tn (coerce_cell tn x) = coerce_cell tn x.
Proof. destruct x; reflexivity. Qed.

Lemma coerce_row_notin (tn : pystr -> option Q) (c : pystr) (cs cols : list pystr)
    (r : list cell) :
  ~ In c cols -> coerce_row tn (c :: cs) cols r = coerce_row tn cs cols r.
Proof.
  revert r; induction cols as [|c' cols IH]; intros [|x r] Hn; try reflexivity.
  cbn [coerce_row in_pystrs existsb].
  assert (E : pystr_eqb c' c = false).
  { apply pystr_eqb_false. intros ->. apply Hn. left. reflexivity. }
  rewrite E, orb_false_l. fold (in_pystrs c' cs). rewrite IH; [reflexivity|].
  intros Hin. apply Hn. right. exact Hin.
Qed.

Lemma coerce_row_step (tn : pystr -> option Q) (c : pystr) (cs cols : list pystr)
    (j : nat) (r : list cell) :
  index_of c cols = Some j -> count_name c cols <= 1 ->
  coerce_row tn cs cols (update_at j (coerce_cell tn) r) = coerce_row tn (c :: cs) cols r.
Proof.
  revert j r; induction cols as [|c' cols IH]; intros j r Hj Hc; [discriminate|].
  cbn [index_of] in Hj. rewrite count_name_cons in Hc.
  destruct (pystr_eqb c c') eqn:E.
  - injection Hj as <-. apply pystr_eqb_eq in E. subst c'.
    assert (Hn : ~ In c cols).
    { intros Hin. pose proof (count_name_In c cols Hin). lia. }
    destruct r as [|x r]; [reflexivity|].
    cbn [update_at coerce_row in_pystrs existsb]. rewrite pystr_eqb_refl, orb_true_l.
    fold (in_pystrs c cs). rewrite coerce_row_notin by exact Hn.
    destruct (in_pystrs c cs); [rewrite coerce_cell_idem|]; reflexivity.
  - destruct (index_of c cols) as [j'|] eqn:F; [|discriminate].
    injection Hj as <-. destruct r as [|x r]; [reflexivity|].
    cbn [update_at coerce_row in_pystrs existsb].
    rewrite (pystr_eqb_sym c' c), E, orb_false_l. fold (in_pystrs c' cs).
    rewrite IH with (j := j'); [reflexivity|reflexivity|lia].
Qed.

Lemma coerce_numeric_ok (tn : pystr -> option Q) (cs : list pystr) :
  forall f, (forall c, In c cs -> In c (df_columns f) /\ count_name c (df_columns f) <= 1) ->
  coerce_numeric tn cs f
  = Ok {| df_columns := df_columns f;
          df_rows := map (coerce_row tn cs (df_columns f)) (df_rows f) |}.
Proof.
  induction cs as [|c cs IH]; intros f H.
  - cbn [coerce_numeric]. destruct f as [cols rows]. cbn [df_columns df_rows].
    rewrite (map_ext _ _ (coerce_row_nil tn cols)), map_id. reflexivity.
  - cbn [coerce_numeric]. destruct (H c (or_introl eq_refl)) as [Hin Hc].
    replace (2 <=? count_name c (df_columns f)) with false by (symmetry; apply Nat.leb_gt; lia).
    destruct (index_of_In c _ Hin) as [j Hj]. rewrite Hj.
    rewrite IH; cbn [df_columns df_rows].
    + rewrite map_map. f_equal. f_equal. apply map_ext. intros r.
      apply coerce_row_step; assumption.
    + intros c' Hc'. apply H. right. exact Hc'.
Qed.

Lemma coerce_numeric_dup (tn : pystr -> option Q) (cs : list pystr) :
  forall f, (forall c, In c cs -> In c (df_columns f)) ->
  (exists c, In c cs /\ 2 <= count_name c (df_columns f)) ->
  coerce_numeric tn cs f = Raise (TypeError to_numeric_msg).
Proof.
  induction cs as [|c cs IH]; intros f Hin [d [Hd Hcount]]; [destruct Hd|].
  cbn [coerce_numeric]. destruct (2 <=? count_name c (df_columns f)) eqn:E; [reflexivity|].
  apply Nat.leb_gt in E.
  destruct (index_of_In c _ (Hin c (or_introl eq_refl))) as [j Hj]. rewrite Hj.
  apply IH; cbn [df_columns].
  - intros c' Hc'. apply Hin. right. exact Hc'.
  - exists d. split; [|exact Hcount]. destruct Hd as [<-|Hd]; [lia|exact Hd].
Qed.

Lemma update_at_nth_error {A : Type} (j i : nat) (f : A -> A) (l : list A) :
  nth_error (update_at j f l) i = if i =? j then option_map f (nth_error l i) else nth_error l i.
Proof.
  revert j i; induction l as [|x l IH]; intros j i.
  - destruct j, (_ =? _), i; reflexivity.
  - destruct j as [|j], i as [|i]; try reflexivity. cbn [update_at nth_error].
    rewrite IH. reflexivity.
Qed.

Lemma update_at_length {A : Type} (j : nat) (f : A -> A) (l : list A) :
  List.length (update_at j f l) = List.length l.
Proof.
  revert j; induction l as [|x l IH]; intros [|j]; cbn [update_at List.length]; auto.
Qed.

Lemma combine_map_self {A B : Type} (g : A -> B) (l : list A) :
  combine l (map g l) = map (fun x => (x, g x)) l.
Proof. induction l as [|x l IH]; [reflexivity|]. cbn. rewrite IH. reflexivity. Qed.

Lemma assign_col_map (name : pystr) (g : list cell -> cell) (cols : list pystr)
    (rows : list (list cell)) :
  assign_col name (map g rows) {| df_columns := cols; df_rows := rows |}
  = {| df_columns := match index_of name cols with Some _ => cols | None => cols ++ [name] end;
       df_rows := map (fun x => match index_of name cols with
                                | Some j => update_at j (fun _ => g x) x
                                | None => x ++ [g x] end) rows |}.
Proof.
  unfold assign_col. cbn [df_columns df_rows].
  destruct (index_of name cols); rewrite combine_map_self, map_map; reflexivity.
Qed.

(** Assigning a column keeps the names distinct and sets the cells of
    that column, the other cells staying as they were. *)
Lemma assign_row_spec (cols : list pystr) (name : pystr) (x : list cell) (v : cell)
    (E : nat -> pystr -> cell) :
  NoDup cols -> List.length x = List.length cols ->
  (forall j c, nth_error cols j = Some c -> nth_error x j = Some (E j c)) ->
  let cols' := match index_of name cols with Some _ => cols | None => cols ++ [name] end in
  let x' := match index_of name cols with
            | Some j => update_at j (fun _ => v) x
            | None => x ++ [v] end in
  NoDup cols' /\ List.length x' = List.length cols'
  /\ (forall j c, nth_error cols' j = Some c ->
        nth_error x' j = Some (if pystr_eqb c name then v else E j c)).
Proof.
  intros Hd Hl HE. cbv zeta. destruct (index_of name cols) as [k|] eqn:Ek.
  - pose proof (index_of_nth _ _ _ Ek) as Hk.
    split; [exact Hd|split; [rewrite update_at_length; exact Hl|]].
    intros j c Hj. rewrite update_at_nth_error.
    destruct (j =? k) eqn:Ejk.
    + apply Nat.eqb_eq in Ejk. subst j. rewrite Hk in Hj. injection Hj as <-.
      rewrite pystr_eqb_refl. rewrite (HE k name Hk). reflexivity.
    + apply Nat.eqb_neq in Ejk. rewrite (HE j c Hj).
      assert (Hc : pystr_eqb c name = false).
      { apply pystr_eqb_false. intros ->.
        apply Ejk. eapply (proj1 (NoDup_nth_error cols)); [exact Hd| |].
        - apply nth_error_Some. congruence.
        - congruence. }
      rewrite Hc. reflexivity.
  - pose proof (index_of_none _ _ Ek) as Hn. split; [|split].
    + apply NoDup_app; [exact Hd|constructor; [intros []|constructor]|].
      intros a Ha [<-|[]]. exact (Hn Ha).
    + rewrite !length_app. cbn. lia.
    + intros j c Hj. destruct (Nat.lt_ge_cases j (List.length cols)) as [Hlt|Hge].
      * rewrite nth_error_app1 in Hj by exact Hlt.
        rewrite nth_error_app1 by lia. rewrite (HE j c Hj).
        assert (Hc : pystr_eqb c name = false).
        { apply pystr_eqb_false. intros ->. apply Hn. eapply nth_error_In. exact Hj. }
        rewrite Hc. reflexivity.
      * rewrite nth_error_app2 in Hj by exact Hge. rewrite nth_error_app2 by lia.
        rewrite Hl. destruct (j - List.length cols) as [|m] eqn:Em.
        -- cbn in Hj. injection Hj as <-. rewrite pystr_eqb_refl. reflexivity.
        -- cbn in Hj. destruct m; discriminate.
Qed.

Lemma nth_error_coerce_row (tn : pystr -> option Q) (cs cols : list pystr) (r : list cell) :
  forall j c x, nth_error cols j = Some c -> nth_error r j = Some x ->
  nth_error (coerce_row tn cs cols r) j
  = Some (if in_pystrs c cs then coerce_cell tn x else x).
Proof.
  revert r; induction cols as [|c' cols IH]; intros r j c x Hc Hx;
    [destruct j; discriminate|].
  destruct r as [|y r]; [destruct j; discriminate|].
  destruct j as [|j]; cbn [coerce_row nth_error] in *.
  - injection Hc as <-. injection Hx as <-. reflexivity.
  - apply IH; assumption.
Qed.

Lemma coerce_row_length (tn : pystr -> option Q) (cs cols : list pystr) (r : list cell) :
  List.length (coerce_row tn cs cols r) = List.length r.
Proof.
  revert r; induction cols as [|c cols IH]; intros [|x r]; try reflexivity.
  cbn [coerce_row List.length]. rewrite IH. reflexivity.
Qed.

Lemma in_pystrs_In (c : pystr) (l : list pystr) : in_pystrs c l = true <-> In c l.
Proof.
  unfold in_pystrs. rewrite existsb_exists. split.
  - intros [y [Hy E]]. apply pystr_eqb_eq in E. subst. exact Hy.
  - intros H. exists c. split; [exact H|apply pystr_eqb_refl].
Qed.

Lemma nodup_cons_count (p : pystr) (cs : list pystr) :
  NoDup (p :: cs) -> forall c, In c cs -> In c (p :: cs) /\ count_name c (p :: cs) <= 1.
Proof.
  intros Hd c Hc. split; [right; exact Hc|]. apply nodup_count, Hd.
Qed.

(** [finish_frame] raises [TypeError] exactly when a column name is
    repeated. *)
Lemma finish_frame_dup (tn : pystr -> option Q) (cs : list pystr) (rows : list (list pystr)) :
  ~ NoDup (py "Page" :: cs) ->
  finish_frame tn cs {| tbl_columns := py "Page" :: cs; tbl_rows := rows |}
  = Raise (TypeError to_numeric_msg).
Proof.
  intros Hd. unfold finish_frame.
  rewrite coerce_numeric_dup; [reflexivity| |].
  - intros c Hc. cbn [frame_of_table df_columns tbl_columns]. right. exact Hc.
  - cbn [frame_of_table df_columns tbl_columns].
    destruct (in_dec (list_eq_dec ascii_dec) (py "Page") cs) as [Hp|Hp].
    + exists (py "Page"). split; [exact Hp|].
      rewrite count_name_cons, pystr_eqb_refl. pose proof (count_name_In _ _ Hp). lia.
    + destruct (not_nodup_count cs) as [c [Hc Hn]].
      * intros Hd'. apply Hd. constructor; assumption.
      * exists c. split; [exact Hc|]. rewrite count_name_cons. lia.
Qed.

(** Assigning a new column appends its name; an existing name stays in
    its place. *)
Lemma nodup_add_col (cols : list pystr) (name : pystr) :
  NoDup cols -> NoDup (match index_of name cols with Some _ => cols | None => cols ++ [name] end).
Proof.
  intros Hd. destruct (index_of name cols) eqn:E; [exact Hd|].
  apply NoDup_app; [exact Hd|repeat constructor; intros []|].
  intros a Ha [<-|[]]. exact (index_of_none _ _ E Ha).
Qed.

Lemma add_col_extra (cols : list pystr) (name : pystr) :
  exists extra, match index_of name cols with Some _ => cols | None => cols ++ [name] end
                = cols ++ extra /\ forall c, In c extra -> c = name.
Proof.
  destruct (index_of name cols).
  - exists []. rewrite app_nil_r. split; [reflexivity|intros _ []].
  - exists [name]. split; [reflexivity|]. intros c [<-|[]]. reflexivity.
Qed.

Lemma add_col_In (cols : list pystr) (name : pystr) :
  In name (match index_of name cols with Some _ => cols | None => cols ++ [name] end).
Proof.
  destruct (index_of name cols) eqn:E.
  - eapply nth_error_In. apply index_of_nth. exact E.
  - apply in_or_app. right. left. reflexivity.
Qed.

Lemma add_col_mono (cols : list pystr) (name c : pystr) :
  In c cols -> In c (match index_of name cols with Some _ => cols | None => cols ++ [name] end).
Proof. intros H. destruct (index_of name cols); [exact H|apply in_or_app; left; exact H]. Qed.

(** What [finish_frame] returns: distinct column names, the original
    columns first and then "ArticleKey" and "lang" when they were not
    there, and one row per string row, holding [parsed_cell] in each
    column. *)
Lemma finish_frame_spec (tn : pystr -> option Q) (cs : list pystr) (rows : list (list pystr))
    (f : frame) :
  Forall (fun r => List.length r = S (List.length cs)) rows ->
  finish_frame tn cs {| tbl_columns := py "Page" :: cs; tbl_rows := rows |} = Ok f ->
  NoDup (py "Page" :: cs) /\ NoDup (df_columns f)
  /\ (exists extra, df_columns f = (py "Page" :: cs) ++ extra
                    /\ forall c, In c extra -> c = py "ArticleKey" \/ c = py "lang")
  /\ In (py "ArticleKey") (df_columns f) /\ In (py "lang") (df_columns f)
  /\ exists G, df_rows f = map G rows
     /\ forall r, In r rows -> List.length (G r) = List.length (df_columns f)
        /\ forall j c, nth_error (df_columns f) j = Some c ->
                       nth_error (G r) j = Some (parsed_cell tn r j c).
Proof.
  intros Hlen Hf.
  assert (Hd : NoDup (py "Page" :: cs)).
  { destruct (NoDup_dec (list_eq_dec ascii_dec) (py "Page" :: cs)) as [Hd|Hd]; [exact Hd|].
    rewrite finish_frame_dup in Hf by exact Hd. discriminate. }
  split; [exact Hd|].
  set (cols := py "Page" :: cs) in *.
  unfold finish_frame in Hf.
  rewrite coerce_numeric_ok in Hf by (apply nodup_cons_count, Hd).
  cbn [frame_of_table df_columns df_rows tbl_columns tbl_rows] in Hf.
  set (row1 := fun r : list pystr => coerce_row tn cs cols (map SCell r)).
  rewrite map_map in Hf. fold row1 in Hf.
  (* the string row before the key columns *)
  set (E1 := fun (r : list pystr) (j : nat) (c : pystr) =>
               if j =? 0 then SCell (hd [] r) else NCell (tn (nth j r []))).
  assert (H1 : forall r, In r rows -> List.length (row1 r) = List.length cols
               /\ forall j c, nth_error cols j = Some c -> nth_error (row1 r) j = Some (E1 r j c)).
  { intros r Hr. rewrite Forall_forall in Hlen. specialize (Hlen r Hr).
    split; [unfold row1; rewrite coerce_row_length, length_map; exact Hlen|].
    intros j c Hj.
    assert (Hjl : j < List.length r)
      by (assert (Hn : nth_error cols j <> None) by congruence;
          apply nth_error_Some in Hn; unfold cols in Hn; cbn [List.length] in Hn; lia).
    unfold row1. rewrite (nth_error_coerce_row tn cs cols _ j c (SCell (nth j r []))).
    - unfold E1. destruct j as [|j].
      + assert (Hc : c = py "Page") by (cbn in Hj; injection Hj as <-; reflexivity). subst c.
        assert (Hp : in_pystrs (py "Page") cs = false)
          by (apply not_true_iff_false; rewrite in_pystrs_In; inversion Hd; assumption).
        rewrite Hp. destruct r; [cbn in Hjl; lia|reflexivity].
      + cbn in Hj. replace (in_pystrs c cs) with true.
        * reflexivity.
        * symmetry. apply in_pystrs_In. eapply nth_error_In. exact Hj.
    - exact Hj.
    - rewrite nth_error_map. rewrite (nth_error_nth' r [] Hjl). reflexivity. }
  set (rows1 := map row1 rows) in Hf.
  unfold column in Hf. cbn [df_columns df_rows] in Hf.
  replace (index_of (py "Page") cols) with (Some 0) in Hf by reflexivity.
  rewrite map_map in Hf.
  set (g1 := fun x : list cell => key_cell (nth 0 x (NCell None))) in Hf.
  rewrite (assign_col_map (py "ArticleKey") g1 cols rows1) in Hf.
  cbn [df_columns df_rows] in Hf.
  set (cols2 := match index_of (py "ArticleKey") cols with
                | Some _ => cols | None => cols ++ [py "ArticleKey"] end) in Hf.
  set (row2 := fun x : list cell => match index_of (py "ArticleKey") cols with
                | Some j => update_at j (fun _ => g1 x) x
                | None => x ++ [g1 x] end) in Hf.
  assert (HinAK : In (py "ArticleKey") cols2).
  { unfold cols2. destruct (index_of (py "ArticleKey") cols) eqn:E.
    - eapply nth_error_In. apply index_of_nth. exact E.
    - apply in_or_app. right. left. reflexivity. }
  destruct (index_of_In _ _ HinAK) as [jAK HjAK]. rewrite HjAK in Hf.
  rewrite map_map in Hf.
  set (g2 := fun y : list cell => lang_cell (nth jAK y (NCell None))) in Hf.
  rewrite (assign_col_map (py "lang") g2 cols2 (map row2 rows1)) in Hf.
  injection Hf as <-. cbn [df_columns df_rows].
  set (E2 := fun (r : list pystr) (j : nat) (c : pystr) =>
               if pystr_eqb c (py "ArticleKey") then SCell (normalize_key (hd [] r)) else E1 r j c).
  assert (H2 : forall r, In r rows -> NoDup cols2 /\ List.length (row2 (row1 r)) = List.length cols2
               /\ forall j c, nth_error cols2 j = Some c -> nth_error (row2 (row1 r)) j = Some (E2 r j c)).
  { intros r Hr. destruct (H1 r Hr) as [Hl1 HE1].
    assert (Hg1 : g1 (row1 r) = SCell (normalize_key (hd [] r))).
    { unfold g1. assert (Hc0 : nth_error cols 0 = Some (py "Page")) by reflexivity.
      rewrite (nth_error_nth _ _ (NCell None) (HE1 0 _ Hc0)). reflexivity. }
    pose proof (assign_row_spec cols (py "ArticleKey") (row1 r) (g1 (row1 r)) (E1 r) Hd Hl1 HE1)
      as Ha. cbv zeta in Ha. fold cols2 in Ha. rewrite Hg1 in Ha.
    unfold row2. cbv beta. rewrite Hg1. exact Ha. }
  set (E3 := fun (r : list pystr) (j : nat) (c : pystr) =>
               if pystr_eqb c (py "lang") then SCell (lang_of (normalize_key (hd [] r)))
               else E2 r j c).
  assert (H3 : forall r, In r rows ->
               let cols3 := match index_of (py "lang") cols2 with
                            | Some _ => cols2 | None => cols2 ++ [py "lang"] end in
               let x3 := match index_of (py "lang") cols2 with
                         | Some j => update_at j (fun _ => g2 (row2 (row1 r))) (row2 (row1 r))
                         | None => row2 (row1 r) ++ [g2 (row2 (row1 r))] end in
               NoDup cols3 /\ List.length x3 = List.length cols3
               /\ forall j c, nth_error cols3 j = Some c -> nth_error x3 j = Some (E3 r j c)).
  { intros r Hr. destruct (H2 r Hr) as [Hd2 [Hl2 HE2]].
    assert (Hg2 : g2 (row2 (row1 r)) = SCell (lang_of (normalize_key (hd [] r)))).
    { unfold g2. pose proof (index_of_nth _ _ _ HjAK) as Hn.
      rewrite (nth_error_nth _ _ (NCell None) (HE2 _ _ Hn)).
      unfold E2. rewrite pystr_eqb_refl. reflexivity. }
    pose proof (assign_row_spec cols2 (py "lang") (row2 (row1 r)) (g2 (row2 (row1 r))) (E2 r)
                  Hd2 Hl2 HE2) as Ha.
    cbv zeta in Ha |- *. rewrite Hg2 in Ha |- *. exact Ha. }
  split; [|split; [|split; [|split]]].
  - (* distinct names *)
    apply nodup_add_col. unfold cols2. apply nodup_add_col. exact Hd.
  - (* the columns *)
    destruct (add_col_extra cols (py "ArticleKey")) as [e1 [He1 Hx1]].
    destruct (add_col_extra cols2 (py "lang")) as [e2 [He2 Hx2]].
    exists (e1 ++ e2). split.
    + etransitivity; [exact He2|]. rewrite app_assoc. f_equal. exact He1.
    + intros c Hc. apply in_app_or in Hc as [Hc|Hc]; [left; exact (Hx1 c Hc)|right; exact (Hx2 c Hc)].
  - (* "ArticleKey" is a column *)
    apply add_col_mono. exact HinAK.
  - (* "lang" is a column *)
    apply add_col_In.
  - (* the rows *)
    eexists. split; [unfold rows1; rewrite !map_map; reflexivity|].
    intros r Hr. destruct (H3 r Hr) as [_ [Hl3 HE3]]. cbv zeta in Hl3, HE3.
    split; [exact Hl3|]. intros j c Hj. etransitivity; [exact (HE3 j c Hj)|]. f_equal.
    unfold E3, E2, E1, parsed_cell.
    destruct (pystr_eqb c (py "ArticleKey")) eqn:EA;
      destruct (pystr_eqb c (py "lang")) eqn:EL; try reflexivity.
    apply pystr_eqb_eq in EA, EL. rewrite EA in EL. discriminate.
Qed.

(** The parsers' string rows have one field per column. *)
Lemma table_rows_length (n k : nat) (lines : list pystr) :
  1 <= n ->
  Forall (fun r => List.length r = n) (filter not_totals_row (extract_rows n (skipn k lines))).
Proof.
  intros Hn. apply Forall_forall. intros r Hr. apply filter_In in Hr as [Hr _].
  exact (proj1 (extract_rows_shape n _ r Hn Hr)).
Qed.

Lemma finish_frame_nodup_ok (tn : pystr -> option Q) (cs : list pystr)
    (rows : list (list pystr)) :
  NoDup (py "Page" :: cs) ->
  exists f, finish_frame tn cs {| tbl_columns := py "Page" :: cs; tbl_rows := rows |} = Ok f.
Proof.
  intros Hd. unfold finish_frame.
  rewrite coerce_numeric_ok by (apply nodup_cons_count, Hd). eexists. reflexivity.
Qed.

Lemma firstn_length_app {A : Type} (l1 l2 : list A) : firstn (List.length l1) (l1 ++ l2) = l1.
Proof. induction l1 as [|x l1 IH]; [reflexivity|]. cbn. rewrite IH. reflexivity. Qed.

Lemma channels_table_at (lines : list pystr) (idx h : nat) :
  find_marker lines = Some idx ->
  idx < h < Nat.min (List.length lines) (idx + 50) ->
  starts_with [comma] (nth h lines []) = true ->
  contains (py "Page Views") (nth h lines []) = false ->
  5 <= List.length (split_on comma (nth h lines [])) ->
  (forall i, idx < i < h ->
     ~ (starts_with [comma] (nth i lines []) = true
        /\ contains (py "Page Views") (nth i lines []) = false
        /\ 5 <= List.length (split_on comma (nth i lines [])))) ->
  channels_table lines =
    let channels := map py_strip (tl (split_on comma (nth h lines []))) in
    Ok {| tbl_columns := py "Page" :: channels;
          tbl_rows := filter not_totals_row
                        (extract_rows (1 + List.length channels) (skipn (h + 2) lines)) |}.
Proof.
  intros Hm Hh H1 H2 H3 Hbefore. unfold channels_table. rewrite Hm.
  unfold next_in_range.
  rewrite (find_in_range_first _ _ _ (idx + 1) h); [reflexivity|lia| |].
  - apply channels_header_cand_fields. auto.
  - intros j Hj. destruct (channels_header_cand (nth j lines [])) eqn:E; [|reflexivity].
    exfalso. apply (Hbefore j); [lia|]. apply channels_header_cand_fields, E.
Qed.

(** C5 (amended).  In [parse_channels], the header is the first line [h]
    after the first "Freeform table" line [idx], with [h] below
    [min(len(lines), idx+50)], that begins with a comma, does not contain
    "Page Views" and has at least 4 commas (at least 5 comma-separated
    fields); its fields after the first, stripped, are the channel
    columns, and the rows are extracted from line [h + 2] on.  When
    "Page" and the channel names are pairwise distinct, [parse_channels]
    returns a DataFrame whose first columns are these, with one row per
    extracted row, in order, whose Page cell is the row's first field;
    when two of these names coincide, it raises [TypeError] in the
    numeric conversion instead. *)
Theorem parse_channels_header (to_numeric : pystr -> option Q) (lines : list pystr)
    (idx h : nat) :
  find_marker lines = Some idx ->
  idx < h < Nat.min (List.length lines) (idx + 50) ->
  starts_with [comma] (nth h lines []) = true ->
  contains (py "Page Views") (nth h lines []) = false ->
  5 <= List.length (split_on comma (nth h lines [])) ->
  (forall i, idx < i < h ->
     ~ (starts_with [comma] (nth i lines []) = true
        /\ contains (py "Page Views") (nth i lines []) = false
        /\ 5 <= List.length (split_on comma (nth i lines [])))) ->
  let channels := map py_strip (tl (split_on comma (nth h lines []))) in
  let rows := filter not_totals_row
                (extract_rows (1 + List.length channels) (skipn (h + 2) lines)) in
  channels_table lines = Ok {| tbl_columns := py "Page" :: channels; tbl_rows := rows |}
  /\ (NoDup (py "Page" :: channels) ->
      exists f, parse_channels to_numeric lines = Ok f
      /\ firstn (1 + List.length channels) (df_columns f) = py "Page" :: channels
      /\ map (fun r => nth 0 r (NCell None)) (df_rows f) = map (fun r => SCell (hd [] r)) rows)
  /\ (~ NoDup (py "Page" :: channels) ->
      parse_channels to_numeric lines = Raise (TypeError to_numeric_msg)).
Proof.
  intros Hm Hh H1 H2 H3 Hbefore channels rows.
  pose proof (channels_table_at lines idx h Hm Hh H1 H2 H3 Hbefore) as Ht.
  cbv zeta in Ht. fold channels in Ht. fold rows in Ht.
  split; [exact Ht|split].
  - intros Hd. unfold parse_channels. rewrite Ht. cbn [tbl_columns tl].
    destruct (finish_frame_nodup_ok to_numeric channels rows Hd) as [f Ef].
    rewrite Ef. exists f. split; [reflexivity|].
    assert (Hl : Forall (fun r => List.length r = S (List.length channels)) rows)
      by (apply table_rows_length; lia).
    destruct (finish_frame_spec _ _ _ _ Hl Ef) as [_ [_ [[extra [Hc _]] [_ [_ [G [HG HGr]]]]]]].
    split.
    + rewrite Hc. exact (firstn_length_app (py "Page" :: channels) extra).
    + rewrite HG, map_map. apply map_ext_in. intros r Hr.
      destruct (HGr r Hr) as [_ HE].
      assert (H0 : nth_error (df_columns f) 0 = Some (py "Page")) by (rewrite Hc; reflexivity).
      rewrite (nth_error_nth _ _ (NCell None) (HE 0 _ H0)). reflexivity.
  - intros Hd. unfold parse_channels. rewrite Ht. cbn [tbl_columns tl].
    apply finish_frame_dup. exact Hd.
Qed.

Lemma parse_channels_header_witness :
  let lines := [py "Freeform table"; py ",A,B,C"; py ",A,B,C,D";
                py ",Page Views,Page Views,Page Views,Page Views"; py "/it/a,1,2,3,4"] in
  let channels := map py_strip (tl (split_on comma (nth 2 lines []))) in
  let rows := filter not_totals_row
                (extract_rows (1 + List.length channels) (skipn (2 + 2) lines)) in
  channels_table lines = Ok {| tbl_columns := py "Page" :: channels; tbl_rows := rows |}
  /\ (NoDup (py "Page" :: channels) ->
      exists f, parse_channels (fun _ => None) lines = Ok f
      /\ firstn (1 + List.length channels) (df_columns f) = py "Page" :: channels
      /\ map (fun r => nth 0 r (NCell None)) (df_rows f) = map (fun r => SCell (hd [] r)) rows)
  /\ (~ NoDup (py "Page" :: channels) ->
      parse_channels (fun _ => None) lines = Raise (TypeError to_numeric_msg)).
Proof.
  intros lines. apply (parse_channels_header (fun _ => None) lines 0 2); subst lines;
    [reflexivity|simpl; lia|reflexivity|reflexivity|simpl; lia|].
  intros i Hi. assert (i = 1) as -> by lia. simpl.
  intros [_ [_ H]]. simpl in H. lia.
Defined.

(** C8.  When the file has a "Freeform table" line [idx] but none of the
    lines [idx+1 .. idx+49] is a header candidate, both parsers raise
    their header-not-found [ValueError] instead of returning a table.
    The code scans [range(idx+1, min(len(lines), idx+50))], so a file
    without a candidate among the 50 lines after the marker raises too. *)
Theorem header_not_found_raises (to_numeric : pystr -> option Q) (lines : list pystr)
    (idx : nat) :
  find_marker lines = Some idx ->
  ((forall i, idx < i < idx + 50 -> i < List.length lines ->
      traffic_header_cand (nth i lines []) = false) ->
   parse_traffic to_numeric lines = Raise (ValueError (py "Traffic header not found.")))
  /\ ((forall i, idx < i < idx + 50 -> i < List.length lines ->
         channels_header_cand (nth i lines []) = false) ->
      parse_channels to_numeric lines = Raise (ValueError (py "Channels header not found."))).
Proof.
  intros Hm. split; intros H.
  - unfold parse_traffic, traffic_table. rewrite Hm. unfold next_in_range.
    rewrite find_in_range_none; [reflexivity|]. intros j Hj. apply H; lia.
  - unfold parse_channels, channels_table. rewrite Hm. unfold next_in_range.
    rewrite find_in_range_none; [reflexivity|]. intros j Hj. apply H; lia.
Qed.

Lemma header_not_found_raises_witness :
  parse_traffic (fun _ => None) [py "Freeform table"; py ",Page Views,Exit Rate"]
  = Raise (ValueError (py "Traffic header not found."))
  /\ parse_channels (fun _ => None) [py "Freeform table"; py ",Page Views,Exit Rate"]
     = Raise (ValueError (py "Channels header not found.")).
Proof.
  destruct (header_not_found_raises (fun _ => None)
              [py "Freeform table"; py ",Page Views,Exit Rate"] 0 eq_refl) as [Ht Hc].
  split; [apply Ht|apply Hc]; intros i Hi Hl; simpl in Hl;
    assert (i = 1) as -> by lia; reflexivity.
Defined.







(** In the row loop of both parsers, a blank line or a line starting
    with a comma ends the table: nothing after it is read, whatever
    follows. *)
Theorem extract_rows_stop_line (n : nat) (pre post : list pystr) (ln : pystr) :
  is_blank ln = true \/ starts_with [comma] ln = true ->
  extract_rows n (pre ++ ln :: post) = extract_rows n pre.
Proof.
  intros Hs. induction pre as [|x pre IH]; cbn [extract_rows app].
  - destruct Hs as [Hs|Hs]; rewrite Hs; [reflexivity|]. destruct (is_blank ln); reflexivity.
  - destruct (is_blank x); [reflexivity|].
    destruct (starts_with [comma] x); [reflexivity|].
    destruct (List.length (split_on comma x) <? n);
      [destruct (starts_with (py "...") (py_strip x)); [reflexivity|exact IH]|].
    rewrite IH. reflexivity.
Qed.

Lemma extract_rows_stop_line_witness :
  extract_rows 3 ([py "/a,1,2"] ++ py "  " :: [py "/b,3,4"]) = extract_rows 3 [py "/a,1,2"]
  /\ extract_rows 3 ([py "/a,1,2"] ++ py ",x,y" :: [py "/b,3,4"]) = extract_rows 3 [py "/a,1,2"].
Proof.
  split; apply extract_rows_stop_line; [left|right]; reflexivity.
Defined.

(** ** [_normalize_key] *)

Lemma slash_run_rest_none (r : pystr) :
  slash_run_rest r = None -> exists c, In c r /\ c <> slash.
Proof.
  induction r as [|c r IH]; cbn [slash_run_rest]; [discriminate|].
  destruct (Ascii.eqb c slash) eqn:E.
  - intros H. destruct (IH H) as [c' [Hin Hc']]. exists c'. split; [right; exact Hin|exact Hc'].
  - intros _. exists c. split; [left; reflexivity|apply eqb_false_neq; exact E].
Qed.

Lemma slash_run_rest_some (r t : pystr) :
  ~ In nl r -> slash_run_rest r = Some t -> t = [] /\ r = repeat slash (List.length r).
Proof.
  revert t. induction r as [|c r IH]; intros t Hnl; cbn [slash_run_rest].
  - intros H. injection H as <-. split; reflexivity.
  - destruct (Ascii.eqb c slash) eqn:E.
    + intros H. apply Ascii.eqb_eq in E. subst c.
      destruct (IH t (fun h => Hnl (or_intror h)) H) as [Ht Hr].
      split; [exact Ht|]. cbn [List.length repeat]. rewrite <- Hr. reflexivity.
    + destruct (at_end (c :: r)) eqn:Ea; [|discriminate].
      destruct (at_end_cases _ Ea) as [Hc|Hc]; [discriminate|].
      exfalso. apply Hnl. rewrite Hc. left. reflexivity.
Qed.

Lemma starts_slash_app (v w : pystr) :
  v <> [] -> starts_with [slash] (v ++ w) = starts_with [slash] v.
Proof. destruct v; [congruence|reflexivity]. Qed.

Lemma sub_trailing_slashes_spec (s : pystr) :
  ~ In nl s ->
  exists k, s = sub_trailing_slashes s ++ repeat slash k
            /\ starts_with [slash] (rev (sub_trailing_slashes s)) = false.
Proof.
  induction s as [|c r IH]; intros Hnl; [exists 0; split; reflexivity|].
  assert (Hr : ~ In nl r) by (intros h; apply Hnl; right; exact h).
  destruct (IH Hr) as [k [Hk Hs]]. cbn [sub_trailing_slashes].
  destruct (Ascii.eqb c slash) eqn:E.
  - apply Ascii.eqb_eq in E. subst c.
    destruct (slash_run_rest r) as [t|] eqn:Er.
    + destruct (slash_run_rest_some r t Hr Er) as [-> Hrep].
      exists (S (List.length r)). split; [|reflexivity].
      cbn [app repeat]. rewrite <- Hrep. reflexivity.
    + exists k. split; [cbn [app]; rewrite <- Hk; reflexivity|].
      destruct (slash_run_rest_none r Er) as [c' [Hin Hc']].
      destruct (sub_trailing_slashes r) as [|a u] eqn:Eu.
      * exfalso. rewrite Hk in Hin. apply repeat_spec in Hin. exact (Hc' Hin).
      * change (rev (slash :: a :: u)) with (rev (a :: u) ++ [slash]).
        rewrite starts_slash_app; [exact Hs|].
        intros H. apply (f_equal (@List.length ascii)) in H. rewrite length_rev in H. discriminate.
  - exists k. split; [cbn [app]; rewrite <- Hk; reflexivity|].
    change (rev (c :: sub_trailing_slashes r)) with (rev (sub_trailing_slashes r) ++ [c]).
    destruct (rev (sub_trailing_slashes r)) as [|a v] eqn:Ev.
    + cbn [app starts_with]. rewrite andb_true_r, eqb_slash_sym. exact E.
    + rewrite starts_slash_app; [exact Hs|discriminate].
Qed.

Lemma dot_html_tail_some (r t : pystr) :
  ~ In nl r -> dot_html_tail r = Some t -> t = [] /\ (r = py "htm" \/ r = py "html").
Proof.
  intros Hnl H. unfold dot_html_tail in H.
  destruct r as [|h [|t0 [|m rest]]]; try discriminate.
  destruct (Ascii.eqb h "h" && Ascii.eqb t0 "t" && Ascii.eqb m "m") eqn:E; [|discriminate].
  apply andb_true_iff in E as [E E3]. apply andb_true_iff in E as [E1 E2].
  apply Ascii.eqb_eq in E1, E2, E3. subst h t0 m.
  destruct rest as [|l rest'].
  - injection H as <-. split; [reflexivity|left; reflexivity].
  - destruct (Ascii.eqb l "l" && at_end rest') eqn:E4.
    + apply andb_true_iff in E4 as [E4 E5]. apply Ascii.eqb_eq in E4. subst l.
      injection H as <-. destruct (at_end_cases _ E5) as [->| ->].
      * split; [reflexivity|right; reflexivity].
      * exfalso. apply Hnl. right; right; right; right. left. reflexivity.
    + destruct (at_end (l :: rest')) eqn:E5; [|discriminate].
      destruct (at_end_cases _ E5) as [Hc|Hc]; [discriminate|].
      exfalso. apply Hnl. rewrite Hc. right; right; right. left. reflexivity.
Qed.

Lemma sub_dot_html_spec (s : pystr) :
  ~ In nl s -> exists suf, s = sub_dot_html s ++ suf /\ In suf [[]; py ".htm"; py ".html"].
Proof.
  induction s as [|c r IH]; intros Hnl; [exists []; split; [reflexivity|left; reflexivity]|].
  assert (Hr : ~ In nl r) by (intros h; apply Hnl; right; exact h).
  assert (Hcons : exists suf, c :: r = c :: sub_dot_html r ++ suf
                              /\ In suf [[]; py ".htm"; py ".html"]).
  { destruct (IH Hr) as [suf [Hs Hin]]. exists suf. split; [rewrite <- Hs; reflexivity|exact Hin]. }
  cbn [sub_dot_html]. destruct (Ascii.eqb c ".") eqn:E; [|exact Hcons].
  destruct (dot_html_tail r) as [t|] eqn:Et; [|exact Hcons].
  apply Ascii.eqb_eq in E. subst c.
  destruct (dot_html_tail_some r t Hr Et) as [-> [-> | ->]].
  - exists (py ".htm"). split; [reflexivity|right; left; reflexivity].
  - exists (py ".html"). split; [reflexivity|right; right; left; reflexivity].
Qed.

(** On a path without a newline, [_normalize_key] only trims the end of
    the stripped path: a path that does not start with "/" is returned
    stripped, and one that does loses its trailing slashes and then at most
    one final ".htm" or ".html"; what is left before that extension never
    ends with "/". *)
Theorem normalize_key_trims_end (x : pystr) :
  ~ In nl x ->
  (starts_with [slash] (py_strip x) = false -> normalize_key x = py_strip x)
  /\ (starts_with [slash] (py_strip x) = true ->
      exists suf k, py_strip x = normalize_key x ++ suf ++ repeat slash k
                    /\ In suf [[]; py ".htm"; py ".html"]
                    /\ starts_with [slash] (rev (normalize_key x ++ suf)) = false).
Proof.
  intros Hnl. unfold normalize_key.
  assert (Hs : ~ In nl (py_strip x)) by (intros h; apply Hnl; eapply py_strip_incl; exact h).
  split.
  - intros H. destruct (py_strip x); [reflexivity|]. rewrite H. reflexivity.
  - intros H. destruct (py_strip x) as [|c r] eqn:E; [discriminate|]. rewrite H.
    destruct (sub_trailing_slashes_spec (c :: r) Hs) as [k [Hk Hend]].
    assert (Hu : ~ In nl (sub_trailing_slashes (c :: r))).
    { intros h. apply Hs. rewrite Hk. apply in_or_app. left. exact h. }
    destruct (sub_dot_html_spec _ Hu) as [suf [Hsuf Hin]].
    exists suf, k. split; [|split; [exact Hin|]].
    + rewrite app_assoc, <- Hsuf. exact Hk.
    + rewrite <- Hsuf. exact Hend.
Qed.

Lemma normalize_key_trims_end_witness :
  (starts_with [slash] (py_strip (py " it/a.html/ ")) = false ->
   normalize_key (py " it/a.html/ ") = py_strip (py " it/a.html/ "))
  /\ (starts_with [slash] (py_strip (py " /it/a.html// ")) = true ->
      exists suf k, py_strip (py " /it/a.html// ") = normalize_key (py " /it/a.html// ") ++ suf ++ repeat slash k
                    /\ In suf [[]; py ".htm"; py ".html"]
                    /\ starts_with [slash] (rev (normalize_key (py " /it/a.html// ") ++ suf)) = false).
Proof.
  split.
  - apply (normalize_key_trims_end (py " it/a.html/ ")). apply no_nl_of_check. reflexivity.
  - apply (normalize_key_trims_end (py " /it/a.html// ")). apply no_nl_of_check. reflexivity.
Defined.

(** ** [_strip_locale_and_prefixes] *)

Lemma drop_prefix_parts_skipn (ps : list pystr) : exists k, drop_prefix_parts ps = skipn k ps.
Proof.
  induction ps as [|p ps IH]; [exists 0; reflexivity|]. cbn [drop_prefix_parts].
  destruct (in_pystrs p drop_prefixes); [|exists 0; reflexivity].
  destruct IH as [k Hk]. exists (S k). exact Hk.
Qed.

Lemma drop_prefix_parts_head (ps : list pystr) :
  drop_prefix_parts ps = [] \/
  exists p ps', drop_prefix_parts ps = p :: ps' /\ in_pystrs p drop_prefixes = false.
Proof.
  induction ps as [|p ps IH]; [left; reflexivity|]. cbn [drop_prefix_parts].
  destruct (in_pystrs p drop_prefixes) eqn:E; [exact IH|]. right. exists p, ps. split; [reflexivity|exact E].
Qed.

Lemma py_join_skipn_suffix (sep : pystr) (k : nat) (ps : list pystr) :
  exists u, py_join sep ps = u ++ py_join sep (skipn k ps).
Proof.
  revert ps. induction k as [|k IH]; intros ps; [exists []; reflexivity|].
  destruct ps as [|p ps]; [exists []; reflexivity|]. cbn [skipn].
  destruct ps as [|p' ps]; [exists p; destruct k; rewrite app_nil_r; reflexivity|].
  destruct (IH (p' :: ps)) as [u Hu]. exists (p ++ sep ++ u).
  rewrite py_join_cons by discriminate. rewrite Hu, !app_assoc. reflexivity.
Qed.

Lemma split_on_no_sep_word (d : ascii) (p : pystr) :
  ~ In d p -> split_on d p = [p].
Proof.
  induction p as [|c p IH]; intros H; [reflexivity|]. cbn [split_on].
  destruct (Ascii.eqb c d) eqn:E; [apply Ascii.eqb_eq in E; subst; exfalso; apply H; left; reflexivity|].
  rewrite IH by (intros h; apply H; right; exact h). reflexivity.
Qed.

Lemma split_on_word_sep (d : ascii) (p t : pystr) :
  ~ In d p -> split_on d (p ++ d :: t) = p :: split_on d t.
Proof.
  induction p as [|c p IH]; intros H; cbn [app split_on].
  - rewrite Ascii.eqb_refl. reflexivity.
  - destruct (Ascii.eqb c d) eqn:E; [apply Ascii.eqb_eq in E; subst; exfalso; apply H; left; reflexivity|].
    rewrite IH by (intros h; apply H; right; exact h). reflexivity.
Qed.

Lemma split_on_py_join (d : ascii) (ps : list pystr) :
  ps <> [] -> Forall (fun w => ~ In d w) ps -> split_on d (py_join [d] ps) = ps.
Proof.
  induction ps as [|p ps IH]; intros Hne Hf; [congruence|].
  inversion Hf as [|p' ps' Hp Hps]; subst.
  destruct ps as [|p2 ps]; [apply split_on_no_sep_word; exact Hp|].
  rewrite py_join_cons by discriminate. cbn [app].
  rewrite split_on_word_sep by exact Hp. rewrite IH; [reflexivity|discriminate|exact Hps].
Qed.

Lemma Forall_skipn' {A : Type} (P : A -> Prop) (k : nat) (l : list A) :
  Forall P l -> Forall P (skipn k l).
Proof.
  revert l. induction k as [|k IH]; intros l H; [exact H|]. destruct l as [|a l]; [exact H|].
  inversion H; subst. apply IH. assumption.
Qed.

(** [_strip_locale_and_prefixes] only removes a beginning: its result is a
    suffix of the path without its leading slashes, and the first
    "/"-separated segment of the result is never "blog", "articoli" or
    "articles". *)
Theorem strip_locale_and_prefixes_spec (path : pystr) :
  let out := strip_locale_and_prefixes path in
  in_pystrs (hd [] (split_on slash out)) drop_prefixes = false
  /\ exists u, lstrip_slash path = u ++ out.
Proof.
  cbv zeta. unfold strip_locale_and_prefixes.
  set (parts := split_on slash (lstrip_slash path)).
  assert (Hloc : exists k, match parts with
                           | p :: ps => if in_pystrs p [py "it"; py "en"] then ps else parts
                           | [] => parts
                           end = skipn k parts).
  { destruct parts as [|p ps]; [exists 0; reflexivity|].
    destruct (in_pystrs p _); [exists 1; reflexivity|exists 0; reflexivity]. }
  destruct Hloc as [k1 Hk1]. rewrite Hk1.
  destruct (drop_prefix_parts_skipn (skipn k1 parts)) as [k2 Hk2].
  split.
  - destruct (drop_prefix_parts_head (skipn k1 parts)) as [E|[p [ps' [E Hp]]]];
      rewrite E; [reflexivity|].
    rewrite split_on_py_join; [exact Hp|discriminate|].
    rewrite <- E, Hk2. apply Forall_skipn', Forall_skipn', split_on_no_sep.
  - rewrite Hk2. destruct (py_join_skipn_suffix [slash] k2 (skipn k1 parts)) as [u2 Hu2].
    destruct (py_join_skipn_suffix [slash] k1 parts) as [u1 Hu1].
    exists (u1 ++ u2). rewrite <- app_assoc, <- Hu2, <- Hu1. unfold parts.
    symmetry. apply split_on_join.
Qed.

(** ** [_detect_url_column] *)

Lemma Qle_bool_false_lt (a b : Q) : Qle_bool a b = false -> (b < a)%Q.
Proof.
  intros H. apply Qnot_le_lt. intros Hle. apply Qle_bool_iff in Hle. congruence.
Qed.

Lemma best_url_col_inv (first : pystr) (cols : url_df) :
  forall bc bs bc' bs', best_url_col first cols bc bs = (bc', bs') ->
  (bs <= bs')%Q
  /\ (forall c vals s, In (c, vals) cols -> boosted_score first c vals = Some s -> (s <= bs')%Q)
  /\ ((bc' = bc /\ bs' = bs)
      \/ exists c vals, bc' = Some c /\ In (c, vals) cols /\ boosted_score first c vals = Some bs').
Proof.
  induction cols as [|[c vals] rest IH]; intros bc bs bc' bs' H; cbn [best_url_col] in H.
  - injection H as <- <-. split; [apply Qle_refl|split; [intros ? ? ? []|left; split; reflexivity]].
  - destruct (boosted_score first c vals) as [s|] eqn:Eb.
    + destruct (Qle_bool s bs) eqn:Ele; cbn [negb] in H.
      * destruct (IH _ _ _ _ H) as [H1 [H2 H3]]. split; [exact H1|split].
        -- intros c' vals' s' [E|Hin] Hs'.
           ++ injection E as -> ->. rewrite Eb in Hs'. injection Hs' as <-.
              apply Qle_bool_iff in Ele. eapply Qle_trans; [exact Ele|exact H1].
           ++ exact (H2 c' vals' s' Hin Hs').
        -- destruct H3 as [H3|[c' [vals' [E [Hin Hs']]]]]; [left; exact H3|].
           right. exists c', vals'. split; [exact E|split; [right; exact Hin|exact Hs']].
      * apply Qle_bool_false_lt in Ele.
        destruct (IH _ _ _ _ H) as [H1 [H2 H3]]. split; [|split].
        -- apply Qlt_le_weak. eapply Qlt_le_trans; [exact Ele|exact H1].
        -- intros c' vals' s' [E|Hin] Hs'.
           ++ injection E as -> ->. rewrite Eb in Hs'. injection Hs' as <-. exact H1.
           ++ exact (H2 c' vals' s' Hin Hs').
        -- right. destruct H3 as [[-> ->]|[c' [vals' [E [Hin Hs']]]]].
           ++ exists c, vals. split; [reflexivity|split; [left; reflexivity|exact Eb]].
           ++ exists c', vals'. split; [exact E|split; [right; exact Hin|exact Hs']].
    + destruct (IH _ _ _ _ H) as [H1 [H2 H3]]. split; [exact H1|split].
      * intros c' vals' s' [E|Hin] Hs'.
        -- injection E as -> ->. rewrite Eb in Hs'. discriminate.
        -- exact (H2 c' vals' s' Hin Hs').
      * destruct H3 as [H3|[c' [vals' [E [Hin Hs']]]]]; [left; exact H3|].
        right. exists c', vals'. split; [exact E|split; [right; exact Hin|exact Hs']].
Qed.

(** [_detect_url_column] returns a column of the frame.  If some column
    is named "Page" (any case, surrounding whitespace allowed) such a
    column is returned.  Otherwise the returned column has the highest
    score among all columns (the share of its first 200 values that start
    with "http://", "https://" or "/" followed by a character, plus 0.05
    for the first column) and that score is at least 0.3; when nothing is
    returned, every column's score is below 0.3. *)
Theorem detect_url_column_spec (df : url_df) :
  let first := match df with (c, _) :: _ => c | [] => [] end in
  (forall c, detect_url_column df = Some c -> In c (map fst df))
  /\ (existsb (fun cv => is_page_name (fst cv)) df = true ->
      exists c, detect_url_column df = Some c /\ is_page_name c = true)
  /\ (existsb (fun cv => is_page_name (fst cv)) df = false ->
      (forall c, detect_url_column df = Some c ->
         exists vals s, In (c, vals) df /\ boosted_score first c vals = Some s
                        /\ (3 # 10 <= s)%Q
                        /\ (forall c' vals' s', In (c', vals') df ->
                              boosted_score first c' vals' = Some s' -> (s' <= s)%Q))
      /\ (detect_url_column df = None ->
          forall c vals s, In (c, vals) df -> boosted_score first c vals = Some s ->
                           (s < 3 # 10)%Q)).
Proof.
  cbv zeta. unfold detect_url_column.
  assert (Hfind : forall cv, find (fun cv => is_page_name (fst cv)) df = Some cv ->
                             In cv df /\ is_page_name (fst cv) = true).
  { intros cv E. split; [eapply find_some; exact E|apply (find_some _ _ E)]. }
  assert (Hnone : existsb (fun cv => is_page_name (fst cv)) df = false ->
                  find (fun cv => is_page_name (fst cv)) df = None).
  { intros E. destruct (find _ df) as [cv|] eqn:F; [|reflexivity].
    destruct (Hfind cv eq_refl) as [Hin Hp]. assert (existsb (fun cv => is_page_name (fst cv)) df = true)
      by (apply existsb_exists; exists cv; split; assumption). congruence. }
  set (first := match df with (c, _) :: _ => c | [] => [] end).
  destruct (best_url_col first df None 0%Q) as [bc bs] eqn:B.
  destruct (best_url_col_inv first df None 0%Q bc bs B) as [B1 [B2 B3]].
  split; [|split].
  - intros c. destruct (find _ df) as [[c0 v0]|] eqn:F.
    + intros E. injection E as <-. destruct (Hfind _ eq_refl) as [Hin _].
      apply in_map_iff. exists (c0, v0). split; [reflexivity|exact Hin].
    + destruct (Qle_bool (3 # 10) bs); [|discriminate]. intros ->.
      destruct B3 as [[E _]|[c' [vals' [E [Hin _]]]]]; [discriminate|].
      injection E as ->. apply in_map_iff. exists (c', vals'). split; [reflexivity|exact Hin].
  - intros E. apply existsb_exists in E as [cv [Hin Hp]].
    destruct (find _ df) as [[c0 v0]|] eqn:F.
    + exists c0. split; [reflexivity|exact (proj2 (Hfind _ eq_refl))].
    + exfalso. eapply find_none in F; [|exact Hin]. congruence.
  - intros E. rewrite (Hnone E). split.
    + intros c Hc. destruct (Qle_bool (3 # 10) bs) eqn:T; [|discriminate].
      apply Qle_bool_iff in T.
      destruct B3 as [[E1 _]|[c' [vals' [E1 [Hin Hs]]]]]; [congruence|].
      rewrite Hc in E1. injection E1 as <-. exists vals', bs.
      split; [exact Hin|split; [exact Hs|split; [exact T|exact B2]]].
    + intros Hc c vals s Hin Hs. destruct (Qle_bool (3 # 10) bs) eqn:T.
      * destruct B3 as [[E1 E2]|[c' [vals' [E1 _]]]]; [|congruence].
        subst bs. apply Qle_bool_iff in T. exfalso. apply (Qlt_not_le 0 (3 # 10)); [reflexivity|exact T].
      * apply Qle_bool_false_lt in T. eapply Qle_lt_trans; [exact (B2 c vals s Hin Hs)|exact T].
Qed.

Lemma detect_url_column_spec_witness :
  let df0 := [(py "A", [py "x"; py "y"; py "z"; py "/a"]); (py "B", [py "/q"; py "/r"; py "x"; py "y"])] in
  let first := py "A" in
  (forall c, detect_url_column df0 = Some c -> In c (map fst df0))
  /\ (existsb (fun cv => is_page_name (fst cv)) df0 = true ->
      exists c, detect_url_column df0 = Some c /\ is_page_name c = true)
  /\ (existsb (fun cv => is_page_name (fst cv)) df0 = false ->
      (forall c, detect_url_column df0 = Some c ->
         exists vals s, In (c, vals) df0 /\ boosted_score first c vals = Some s
                        /\ (3 # 10 <= s)%Q
                        /\ (forall c' vals' s', In (c', vals') df0 ->
                              boosted_score first c' vals' = Some s' -> (s' <= s)%Q))
      /\ (detect_url_column df0 = None ->
          forall c vals s, In (c, vals) df0 -> boosted_score first c vals = Some s ->
                           (s < 3 # 10)%Q)).
Proof.
  exact (detect_url_column_spec [(py "A", [py "x"; py "y"; py "z"; py "/a"]); (py "B", [py "/q"; py "/r"; py "x"; py "y"])]).
Defined.

(** ** [_last_segment] *)

Lemma sqf_prefix (a q : pystr) :
  forallb (fun c => negb (is_qf c)) a = true -> ~ In nl q ->
  (q = [] \/ exists c r, q = c :: r /\ is_qf c = true) ->
  sub_query_fragment (a ++ q) = a.
Proof.
  intros Ha Hq Hs. induction a as [|c a IH]; cbn [app sub_query_fragment].
  - destruct Hs as [->|[c [r [-> Hc]]]]; [reflexivity|]. cbn [sub_query_fragment].
    rewrite Hc, dollar_rest_no_nl; [reflexivity|intros h; apply Hq; right; exact h].
  - cbn [forallb] in Ha. apply andb_true_iff in Ha as [Hc Ha].
    apply negb_true_iff in Hc. rewrite Hc, IH by exact Ha. reflexivity.
Qed.

Lemma rev_slash_unique (k1 k2 : nat) (a b : pystr) :
  repeat slash k1 ++ a = repeat slash k2 ++ b ->
  starts_with [slash] a = false -> starts_with [slash] b = false -> a = b.
Proof.
  revert k2. induction k1 as [|k1 IH]; intros [|k2] H Ha Hb; cbn [repeat app] in H.
  - exact H.
  - subst a. discriminate.
  - subst b. discriminate.
  - injection H as H. exact (IH k2 H Ha Hb).
Qed.

Lemma slash_suffix_unique (a b : pystr) (k1 k2 : nat) :
  a ++ repeat slash k1 = b ++ repeat slash k2 ->
  starts_with [slash] (rev a) = false -> starts_with [slash] (rev b) = false -> a = b.
Proof.
  intros H Ha Hb. apply (f_equal (@rev ascii)) in H. rewrite !rev_app_distr, !rev_repeat in H.
  rewrite <- (rev_involutive a), <- (rev_involutive b). f_equal.
  exact (rev_slash_unique k1 k2 _ _ H Ha Hb).
Qed.

Lemma ci_not_slash (l : ascii) : ci slash l = Ascii.eqb slash l.
Proof. reflexivity. Qed.

Lemma dot_html_tail_ci_no_slash (r t : pystr) :
  dot_html_tail_ci r = Some t -> ~ In nl r -> ~ In slash r.
Proof.
  unfold dot_html_tail_ci. destruct r as [|h [|t0 [|m rest]]]; try discriminate.
  destruct (ci h "h" && ci t0 "t" && ci m "m") eqn:E; [|discriminate].
  apply andb_true_iff in E as [E E3]. apply andb_true_iff in E as [E1 E2].
  assert (Hne : forall c l, ci c l = true -> Ascii.eqb slash l = false -> c <> slash)
    by (intros c l Hc Hl ->; rewrite ci_not_slash in Hc; congruence).
  assert (Hh : h <> slash) by (apply (Hne h "h"); [exact E1|reflexivity]).
  assert (Ht : t0 <> slash) by (apply (Hne t0 "t"); [exact E2|reflexivity]).
  assert (Hm : m <> slash) by (apply (Hne m "m"); [exact E3|reflexivity]).
  intros Hsome Hnl Hin.
  destruct Hin as [Hin|[Hin|[Hin|Hin]]]; [congruence|congruence|congruence|].
  destruct rest as [|l rest']; [exact Hin|].
  destruct (ci l "l" && at_end rest') eqn:E4.
  - apply andb_true_iff in E4 as [E4 E5].
    assert (Hl : l <> slash) by (apply (Hne l "l"); [exact E4|reflexivity]).
    destruct Hin as [Hin|Hin]; [congruence|].
    destruct (at_end_cases _ E5) as [->| ->]; [exact Hin|].
    destruct Hin as [Hin|[]]. unfold nl, slash in Hin. discriminate.
  - destruct (at_end (l :: rest')) eqn:E5; [|discriminate].
    destruct (at_end_cases _ E5) as [Hc|Hc]; [discriminate|].
    apply Hnl. rewrite Hc. right; right; right. left. reflexivity.
Qed.

Lemma sub_dot_html_ci_no_dot (s : pystr) : ~ In "." s -> sub_dot_html_ci s = s.
Proof.
  induction s as [|c r IH]; intros H; [reflexivity|]. cbn [sub_dot_html_ci].
  destruct (Ascii.eqb c ".") eqn:E; [apply Ascii.eqb_eq in E; subst; exfalso; apply H; left; reflexivity|].
  rewrite IH by (intros h; apply H; right; exact h). reflexivity.
Qed.

Lemma sub_dot_html_ci_before_slash (u seg : pystr) :
  ~ In "." seg -> ~ In nl (u ++ slash :: seg) ->
  sub_dot_html_ci (u ++ slash :: seg) = u ++ slash :: seg.
Proof.
  intros Hseg. induction u as [|c u IH]; intros Hnl; cbn [app sub_dot_html_ci].
  - change (Ascii.eqb slash ".") with false. cbv iota. rewrite sub_dot_html_ci_no_dot by exact Hseg.
    reflexivity.
  - assert (Hr : ~ In nl (u ++ slash :: seg)) by (intros h; apply Hnl; right; exact h).
    destruct (Ascii.eqb c "."); [|rewrite IH by exact Hr; reflexivity].
    destruct (dot_html_tail_ci (u ++ slash :: seg)) as [t|] eqn:Et.
    + exfalso. apply (dot_html_tail_ci_no_slash _ t Et Hr).
      apply in_or_app. right. left. reflexivity.
    + rewrite IH by exact Hr. reflexivity.
Qed.

Lemma split_on_sep_app (d : ascii) (a b : pystr) :
  exists w ws, split_on d (a ++ d :: b) = w :: ws ++ split_on d b.
Proof.
  induction a as [|c a IH]; cbn [app split_on].
  - rewrite Ascii.eqb_refl. exists [], []. reflexivity.
  - destruct IH as [w [ws IH]]. destruct (Ascii.eqb c d).
    + exists [], (w :: ws). rewrite IH. reflexivity.
    + rewrite IH. exists (c :: w), ws. reflexivity.
Qed.

Lemma last_app_ne {A : Type} (l1 l2 : list A) (x : A) :
  l2 <> [] -> last (l1 ++ l2) x = last l2 x.
Proof.
  intros H. induction l1 as [|a l1 IH]; [reflexivity|]. cbn [app].
  rewrite <- IH. destruct (l1 ++ l2) eqn:E; [apply app_eq_nil in E as [_ E]; congruence|].
  reflexivity.
Qed.

(** [_last_segment] gives back the last segment of a path: for a path
    [u/seg] followed by any number of slashes and then nothing or a query
    or fragment (starting with "?" or "#"), where [seg] is a non-empty
    segment without "/" or ".", [u] and [seg] contain no "?" or "#", and
    the path has no newline, the result is [seg]. *)
Theorem last_segment_roundtrip (u seg q : pystr) (k : nat) :
  ~ In nl (u ++ seg ++ q) ->
  forallb (fun c => negb (is_qf c)) (u ++ seg) = true ->
  seg <> [] -> ~ In slash seg -> ~ In "." seg ->
  (q = [] \/ exists c r, q = c :: r /\ is_qf c = true) ->
  last_segment (u ++ [slash] ++ seg ++ repeat slash k ++ q) = seg.
Proof.
  intros Hnl Hqf Hne Hsl Hdot Hq.
  assert (Hnu : ~ In nl u) by (intros h; apply Hnl; apply in_or_app; left; exact h).
  assert (Hns : ~ In nl seg) by (intros h; apply Hnl; apply in_or_app; right; apply in_or_app; left; exact h).
  assert (Hnq : ~ In nl q) by (intros h; apply Hnl; apply in_or_app; right; apply in_or_app; right; exact h).
  assert (Hnp : ~ In nl (u ++ slash :: seg)).
  { intros h. apply in_app_or in h as [h|[h|h]]; [exact (Hnu h)|discriminate|exact (Hns h)]. }
  unfold last_segment.
  rewrite (app_assoc [slash] seg), (app_assoc ([slash] ++ seg)), (app_assoc u).
  rewrite sqf_prefix; [|rewrite !forallb_app; rewrite forallb_app in Hqf;
                          apply andb_true_iff in Hqf as [H1 H2]; rewrite H1, H2;
                          cbn; clear; induction k; [reflexivity|exact IHk]|exact Hnq|exact Hq].
  match goal with |- context [sub_trailing_slashes ?x] =>
    replace x with ((u ++ slash :: seg) ++ repeat slash k) by (rewrite <- !app_assoc; reflexivity)
  end.
  assert (Hend : starts_with [slash] (rev (u ++ slash :: seg)) = false).
  { destruct (exists_last Hne) as [s' [c Hc]]. rewrite Hc.
    replace (u ++ slash :: s' ++ [c]) with ((u ++ slash :: s') ++ [c]) by (rewrite <- app_assoc; reflexivity).
    rewrite rev_app_distr. cbn [rev app starts_with]. rewrite andb_true_r.
    destruct (Ascii.eqb slash c) eqn:E; [|reflexivity].
    apply Ascii.eqb_eq in E. exfalso. apply Hsl. rewrite Hc, <- E. apply in_or_app. right. left. reflexivity. }
  destruct (sub_trailing_slashes_spec ((u ++ slash :: seg) ++ repeat slash k)) as [k' [Hk' Hs']].
  { intros h. apply in_app_or in h as [h|h]; [exact (Hnp h)|apply repeat_spec in h; discriminate]. }
  rewrite <- (slash_suffix_unique _ _ _ _ Hk' Hend Hs').
  rewrite sub_dot_html_ci_before_slash by assumption.
  destruct (u ++ slash :: seg) eqn:E; [destruct u; discriminate|]. rewrite <- E.
  destruct (split_on_sep_app slash u seg) as [w [ws Hw]]. rewrite Hw.
  rewrite (app_comm_cons ws), last_app_ne by apply split_on_nonempty.
  rewrite split_on_no_sep_word by exact Hsl. reflexivity.
Qed.

Lemma last_segment_roundtrip_witness :
  last_segment (py "https://site.com/it/blog" ++ [slash] ++ py "my-post" ++ repeat slash 2 ++ py "?utm=1")
  = py "my-post".
Proof.
  apply last_segment_roundtrip; try (apply no_nl_of_check; reflexivity); try reflexivity.
  - discriminate.
  - vm_compute. intros h; repeat (destruct h as [h|h]; [discriminate|]); exact h.
  - vm_compute. intros h; repeat (destruct h as [h|h]; [discriminate|]); exact h.
  - right. exists "?", (py "utm=1"). split; reflexivity.
Defined.
